(** * NSW Live Traffic integration: fetch-and-merge, proximity filter and
    snapshot differ.

    Shallow embedding of
    - [util.py]          : [haversine_distance], [get_nested_value],
                           [get_geojson_properties_get_first_url]
    - [api.py]           : [NswLiveTrafficApiClient.async_get_hazards]
    - [coordinator.py]   : [NswLiveTrafficDataUpdateCoordinator._async_update_data]
    - [config_flow.py]   : [_validate_api_key], [async_step_user] and the
                           options flow's [async_step_init]
    - [geo_location.py]  : [update_entities] (scope check and diff) and the
                           attribute computation of the hazard entity
    - [sensor.py]        : [async_setup_entry] and
                           [NswLiveTrafficNearbyHazardCountSensor.native_value]

    Python values decoded from JSON are the inductive [pyval]; a Python
    dict is an association list in insertion order (JSON objects have
    distinct keys, lookup takes the first binding).  Python exceptions are
    the constructors of [exn]; code that may raise returns a [result].
    Float arithmetic of the haversine formula is computed exactly over the
    reals; numbers inside JSON values are rationals (finite JSON numbers). *)

From Stdlib Require Import List String Ascii Bool ZArith QArith Qround Reals Lra Lia.
Import ListNotations.
Open Scope string_scope.
Set Warnings "-register-all".

(* ------------------------------------------------------------------ *)
(** ** Python values *)

Inductive pyval : Type :=
| PNone
| PBool (b : bool)
| PInt (z : Z)
| PFloat (v : Q) (repr : string)   (** value and its [repr()] text *)
| PStr (s : string)
| PList (l : list pyval)
| PDict (d : list (string * pyval)).

(** Python exceptions raised by the modelled code. *)
Inductive exn : Type :=
| AttributeError | TypeError | ValueError | KeyError | IndexError
| OverflowError | ClientResponseError | ClientError | TimeoutError
| OtherError | InvalidApiKeyError | ConfigEntryAuthFailed | UpdateFailed.

Inductive result (A : Type) : Type :=
| Ok (a : A)
| Err (e : exn).
Arguments Ok {A} a.
Arguments Err {A} e.

Definition bind {A B} (m : result A) (k : A -> result B) : result B :=
  match m with Ok a => k a | Err e => Err e end.

Notation "x <- c ;; k" := (bind c (fun x => k))
  (at level 61, c at next level, right associativity).

(** Decimal text of an integer, as [str(int)] prints it. *)
Fixpoint digits_N (fuel : nat) (n : N) (acc : string) : string :=
  match fuel with
  | O => acc
  | S f =>
      let acc' := String (ascii_of_N (48 + N.modulo n 10)) acc in
      if N.ltb n 10 then acc' else digits_N f (N.div n 10) acc'
  end.

Definition str_N (n : N) : string := digits_N (S (N.to_nat (N.size n))) n "".

Definition str_Z (z : Z) : string :=
  match z with
  | Z.neg p => "-" ++ str_N (Npos p)
  | _ => str_N (Z.to_N z)
  end.

(** [str()] and [repr()] of a value (string escapes are not modelled). *)
Fixpoint py_repr (v : pyval) : string :=
  match v with
  | PNone => "None"
  | PBool true => "True"
  | PBool false => "False"
  | PInt z => str_Z z
  | PFloat _ r => r
  | PStr s => "'" ++ s ++ "'"
  | PList l =>
      "[" ++ (fix go (l : list pyval) : string :=
                match l with
                | [] => ""
                | [x] => py_repr x
                | x :: r => py_repr x ++ ", " ++ go r
                end) l ++ "]"
  | PDict d =>
      "{" ++ (fix go (d : list (string * pyval)) : string :=
                match d with
                | [] => ""
                | [(k, x)] => "'" ++ k ++ "': " ++ py_repr x
                | (k, x) :: r => "'" ++ k ++ "': " ++ py_repr x ++ ", " ++ go r
                end) d ++ "}"
  end.

Definition py_str (v : pyval) : string :=
  match v with
  | PStr s => s
  | _ => py_repr v
  end.

(** Truthiness, as [if x:] / [not x] test it. *)
Definition py_truthy (v : pyval) : bool :=
  match v with
  | PNone => false
  | PBool b => b
  | PInt z => negb (Z.eqb z 0)
  | PFloat q _ => negb (Qeq_bool q 0)
  | PStr s => negb (String.eqb s "")
  | PList l => match l with [] => false | _ => true end
  | PDict d => match d with [] => false | _ => true end
  end.

Fixpoint dict_get (d : list (string * pyval)) (k : string) : option pyval :=
  match d with
  | [] => None
  | (k', v) :: r => if String.eqb k k' then Some v else dict_get r k
  end.

(** [v.get(k, default)]: only dicts have a [get] method. *)
Definition py_get (v : pyval) (k : string) (default : pyval) : result pyval :=
  match v with
  | PDict d => Ok (match dict_get d k with Some x => x | None => default end)
  | _ => Err AttributeError
  end.

(** [k in v] for a dict [v]. *)
Definition dict_has (v : pyval) (k : string) : bool :=
  match v with
  | PDict d => match dict_get d k with Some _ => true | None => false end
  | _ => false
  end.

Definition is_dict (v : pyval) : bool :=
  match v with PDict _ => true | _ => false end.

(* ------------------------------------------------------------------ *)
(** ** api.py: [NswLiveTrafficApiClient.async_get_hazards] *)

Module Api.

Definition API_ENDPOINT_BASE : string :=
  "https://api.transport.nsw.gov.au/v1/live/hazards".

(** A response as the client sees it: status code, whether [text()]
    decodes, and the result of [json()] ([None] when it raises). *)
Record response : Type := {
  status : Z;
  text_ok : bool;
  json_body : option pyval
}.

(** Outcome of [session.get]: a response, or an exception raised by the
    transport. *)
Inductive outcome : Type :=
| Resp (r : response)
| NetTimeout      (** asyncio.TimeoutError *)
| NetClientError  (** aiohttp.ClientError (connection problems) *)
| NetOther.       (** any other exception *)

(** The upstream server: the outcome of the [n]-th request of the pass
    for a given URL. *)
Definition network : Type := nat -> string -> outcome.

Definition endpoints_to_try (seg : string) : list string :=
  [ API_ENDPOINT_BASE ++ "/" ++ seg ++ "/open";
    API_ENDPOINT_BASE ++ "/" ++ seg ++ "/all";
    API_ENDPOINT_BASE ++ "/" ++ seg ].

(** Mutable locals of the method: [seen_feature_ids], [all_features],
    and the number of requests issued so far. *)
Record fstate : Type := {
  seen : list string;
  all_features : list pyval;
  nreq : nat
}.

(** Lines 134-141: the loop over [features_from_this_call].  An
    exception ([feature.get] on a non-dict) leaves the loop with the
    features appended so far. *)
Fixpoint merge_features (fs : list pyval) (sn : list string) (acc : list pyval)
  : list string * list pyval * option exn :=
  match fs with
  | [] => (sn, acc, None)
  | f :: rest =>
      match py_get f "id" PNone with
      | Err e => (sn, acc, Some e)
      | Ok idv =>
          let feature_id := py_str idv in
          if negb (String.eqb feature_id "") &&
             negb (existsb (String.eqb feature_id) sn)
          then merge_features rest (feature_id :: sn) (acc ++ [f])
          else if String.eqb feature_id ""
          then merge_features rest sn (acc ++ [f])
          else merge_features rest sn acc
      end
  end.

(** Lines 84-176: the loop over the endpoint variants of one category.
    Returns the updated locals and [success].  Every [continue], and the
    end of an [except] branch or of a failed check on the last variant,
    moves to the next variant (there is none after the last one); 401 and
    403 [break] out; a processed feature list sets [success] and breaks. *)
Fixpoint try_endpoints (net : network) (eps : list string) (st : fstate)
  : fstate * bool :=
  match eps with
  | [] => (st, false)
  | url :: rest =>
      let st1 := {| seen := seen st; all_features := all_features st;
                    nreq := S (nreq st) |} in
      match net (nreq st) url with
      | NetTimeout | NetClientError | NetOther => try_endpoints net rest st1
      | Resp r =>
          if Z.eqb (status r) 401 then (st1, false)
          else if Z.eqb (status r) 403 then (st1, false)
          else if Z.leb 400 (status r)
          then (* raise_for_status raises, or the 400 [continue] *)
               try_endpoints net rest st1
          else if negb (text_ok r) then try_endpoints net rest st1
          else match json_body r with
               | None => try_endpoints net rest st1
               | Some j =>
                   if dict_has j "features" then
                     match py_get j "features" (PList []) with
                     | Ok (PList fs) =>
                         match merge_features fs (seen st1) (all_features st1) with
                         | (sn, acc, None) =>
                             ({| seen := sn; all_features := acc;
                                 nreq := nreq st1 |}, true)
                         | (sn, acc, Some _) =>
                             try_endpoints net rest
                               {| seen := sn; all_features := acc;
                                  nreq := nreq st1 |}
                         end
                     | _ => try_endpoints net rest st1
                     end
                   else try_endpoints net rest st1
               end
      end
  end.

Fixpoint fetch_categories (net : network) (paths : list string) (st : fstate)
  : fstate :=
  match paths with
  | [] => st
  | seg :: rest =>
      let '(st', _) := try_endpoints net (endpoints_to_try seg) st in
      fetch_categories net rest st'
  end.

Definition feature_collection (fs : list pyval) : pyval :=
  PDict [("type", PStr "FeatureCollection"); ("features", PList fs)].

Definition async_get_hazards (api_key : string) (net : network)
  (selected_api_paths : list string) : result pyval :=
  if String.eqb api_key "" then Err InvalidApiKeyError
  else match selected_api_paths with
       | [] => Ok (feature_collection [])
       | _ =>
           let st := fetch_categories net selected_api_paths
                       {| seen := []; all_features := []; nreq := 0 |} in
           Ok (feature_collection (all_features st))
       end.

End Api.

(* ------------------------------------------------------------------ *)
(** ** More Python operations on values *)

(** The numeric value of [bool], [int] and [float] (bool is an int). *)
Definition num_of (v : pyval) : option Q :=
  match v with
  | PBool b => Some (if b then 1%Q else 0%Q)
  | PInt z => Some (inject_Z z)
  | PFloat q _ => Some q
  | _ => None
  end.

(** Python [==]: numbers compare by value across bool/int/float, lists
    element-wise, dicts as maps (same keys, equal values). *)
Fixpoint py_eq (a b : pyval) : bool :=
  match a, b with
  | PNone, PNone => true
  | PStr s, PStr t => String.eqb s t
  | PList l1, PList l2 =>
      (fix go (l1 l2 : list pyval) : bool :=
         match l1, l2 with
         | [], [] => true
         | x :: r1, y :: r2 => py_eq x y && go r1 r2
         | _, _ => false
         end) l1 l2
  | PDict d1, PDict d2 =>
      (fix go (d : list (string * pyval)) (earlier : list string) : bool :=
         match d with
         | [] => true
         | (k, x) :: r =>
             (if existsb (String.eqb k) earlier then true
              else match dict_get d2 k with
                   | Some y => py_eq x y
                   | None => false
                   end) && go r (k :: earlier)
         end) d1 []
      && forallb (fun k => match dict_get d1 k with Some _ => true | None => false end)
                 (map fst d2)
  | _, _ =>
      match num_of a, num_of b with
      | Some x, Some y => Qeq_bool x y
      | _, _ => false
      end
  end.

Definition char_str (c : ascii) : pyval := PStr (String c EmptyString).

(** [for x in v]: lists yield elements, strings characters, dicts keys. *)
Definition py_iter (v : pyval) : result (list pyval) :=
  match v with
  | PList l => Ok l
  | PStr s => Ok (map char_str (list_ascii_of_string s))
  | PDict d => Ok (map (fun kv => PStr (fst kv)) d)
  | _ => Err TypeError
  end.

(** [len(v)]. *)
Definition py_len (v : pyval) : result nat :=
  match v with
  | PList l => Ok (List.length l)
  | PStr s => Ok (String.length s)
  | PDict d => Ok (List.length d)
  | _ => Err TypeError
  end.

(** [v[i]] for a non-negative int [i]. *)
Definition py_index (v : pyval) (i : nat) : result pyval :=
  match v with
  | PList l => match nth_error l i with Some x => Ok x | None => Err IndexError end
  | PStr s => match String.get i s with Some c => Ok (char_str c) | None => Err IndexError end
  | PDict _ => Err KeyError
  | _ => Err TypeError
  end.

Definition is_none (v : pyval) : bool :=
  match v with PNone => true | _ => false end.

Definition lower_ascii (c : ascii) : ascii :=
  let n := nat_of_ascii c in
  if (65 <=? n)%nat && (n <=? 90)%nat then ascii_of_nat (n + 32)%nat else c.

Definition str_lower (s : string) : string :=
  string_of_list_ascii (map lower_ascii (list_ascii_of_string s)).

Definition is_alnum (c : ascii) : bool :=
  let n := nat_of_ascii c in
  ((48 <=? n)%nat && (n <=? 57)%nat) || ((97 <=? n)%nat && (n <=? 122)%nat).

Fixpoint slug_go (cs : list ascii) (pending started : bool) : string :=
  match cs with
  | [] => ""
  | c :: r =>
      let c' := lower_ascii c in
      if is_alnum c' then
        if pending && started then String "_" (String c' (slug_go r false true))
        else String c' (slug_go r false true)
      else slug_go r true started
  end.

(** [homeassistant.util.slugify] on ASCII text: lower case, runs of other
    characters become one [_], no leading or trailing [_]; an empty slug
    is ["unknown"].  A non-string argument makes python-slugify raise. *)
Definition slugify (v : pyval) : result string :=
  match v with
  | PNone => Ok ""
  | PStr s =>
      if String.eqb s "" then Ok ""
      else let t := slug_go (list_ascii_of_string s) false false in
           Ok (if String.eqb t "" then "unknown" else t)
  | _ => Err TypeError
  end.

(* ------------------------------------------------------------------ *)
(** ** coordinator.py: [_async_update_data] *)

Module Coordinator.

(** The outcome of one refresh, from the outcome of [async_get_hazards]. *)
Definition async_update_data (fetched : result pyval) : result pyval :=
  match fetched with
  | Ok data =>
      if is_dict data && dict_has data "features" then Ok data
      else Err UpdateFailed
  | Err InvalidApiKeyError => Err ConfigEntryAuthFailed
  | Err _ => Err UpdateFailed
  end.

(** [coordinator.data] after a refresh: replaced on success (always a
    dict), kept by the DataUpdateCoordinator when the update raised. *)
Definition refresh (prev : option (list (string * pyval))) (fetched : result pyval)
  : option (list (string * pyval)) :=
  match async_update_data fetched with
  | Ok (PDict d) => Some d
  | _ => prev
  end.

End Coordinator.

(* ------------------------------------------------------------------ *)
(** ** util.py: [haversine_distance] *)

Open Scope R_scope.

(** A Python float that may be [inf]. *)
Inductive xreal : Type :=
| Fin (r : R)
| PosInf.

Definition radians (x : R) : R := x * PI / 180.

(** [math.atan2(y, x)]. *)
Definition atan2 (y x : R) : R :=
  if Rlt_dec 0 x then atan (y / x)
  else if Rlt_dec x 0 then
    (if Rle_dec 0 y then atan (y / x) + PI else atan (y / x) - PI)
  else if Rlt_dec 0 y then PI / 2
  else if Rlt_dec y 0 then - (PI / 2)
  else 0.

(** The haversine formula of lines 21-30, in kilometres. *)
Definition haversine_km (lat1 lon1 lat2 lon2 : R) : R :=
  let rlat1 := radians lat1 in
  let rlon1 := radians lon1 in
  let rlat2 := radians lat2 in
  let rlon2 := radians lon2 in
  let dlon := rlon2 - rlon1 in
  let dlat := rlat2 - rlat1 in
  let a := (sin (dlat / 2)) ^ 2 + cos rlat1 * cos rlat2 * (sin (dlon / 2)) ^ 2 in
  let c := 2 * atan2 (sqrt a) (sqrt (1 - a)) in
  let radius_earth_km := 6371 in
  radius_earth_km * c.

(** [float(v)] as [math.radians] takes it: bool, int and float only. *)
Definition to_float (v : pyval) : result R :=
  match num_of v with
  | Some q => Ok (Q2R q)
  | None => Err TypeError
  end.

Definition haversine_distance (lat1 lon1 lat2 lon2 : pyval) : result xreal :=
  if existsb is_none [lat1; lon1; lat2; lon2] then Ok PosInf
  else
    a1 <- to_float lat1 ;;
    o1 <- to_float lon1 ;;
    a2 <- to_float lat2 ;;
    o2 <- to_float lon2 ;;
    Ok (Fin (haversine_km a1 o1 a2 o2)).

(** [d <= r] for a float [d] (possibly [inf]) and a finite float [r]. *)
Definition xle (d : xreal) (r : R) : bool :=
  match d with
  | Fin x => if Rle_dec x r then true else false
  | PosInf => false
  end.

(** [d / 1000]. *)
Definition xdiv1000 (d : xreal) : xreal :=
  match d with
  | Fin x => Fin (x / 1000)
  | PosInf => PosInf
  end.

Close Scope R_scope.

(* ------------------------------------------------------------------ *)
(** ** geo_location.py: the hazard entity *)

Module Geo.

Fixpoint assoc_get {A} (l : list (string * A)) (k : string) : option A :=
  match l with
  | [] => None
  | (k', v) :: r => if String.eqb k k' then Some v else assoc_get r k
  end.

(** [d[k] = v] on a Python dict: an existing key keeps its position. *)
Fixpoint assoc_insert {A} (k : string) (v : A) (l : list (string * A))
  : list (string * A) :=
  match l with
  | [] => [(k, v)]
  | (k', v') :: r =>
      if String.eqb k k' then (k, v) :: r else (k', v') :: assoc_insert k v r
  end.

(** [d.pop(k)] with [k] present. *)
Fixpoint assoc_remove {A} (k : string) (l : list (string * A)) : list (string * A) :=
  match l with
  | [] => []
  | (k', v') :: r => if String.eqb k k' then r else (k', v') :: assoc_remove k r
  end.

(** An attribute value: a JSON value, or the ISO text of a UTC datetime,
    represented by its microseconds since the epoch (isoformat is
    injective on them). *)
Inductive aval : Type :=
| AV (v : pyval)
| ATime (us : Z).

Definition aval_eq (a b : aval) : bool :=
  match a, b with
  | AV x, AV y => py_eq x y
  | ATime x, ATime y => Z.eqb x y
  | _, _ => false
  end.

Definition attrs : Type := list (string * aval).

Definition HAZARD_TYPE_DISPLAY_NAME_MAP : list (string * string) :=
  [ ("accident", "Accidents"); ("breakdown", "Breakdowns");
    ("roadwork", "Roadworks"); ("fire", "Fires"); ("flooding", "Flooding");
    ("heavy_vehicle", "Heavy Vehicle Issues"); ("hazard", "General Hazards");
    ("special_event", "Special Events"); ("alpine", "Alpine Conditions");
    ("diversion", "Diversions");
    ("changedtrafficconditions", "Changed Traffic Conditions");
    ("incident", "Incidents"); ("majorevent", "Major Events") ].

Definition SIGNIFICANT_ATTRIBUTE_KEYS : list string :=
  [ "main_category"; "advice_a"; "other_advice"; "roads"; "start_time";
    "end_time"; "duration_minutes"; "impact"; "ended"; "is_major" ].

(** Seconds at which [datetime] leaves its range (year 10000). *)
Definition MAX_TIMESTAMP_S : Q := 253402300800.

Definition round_half_even (q : Q) : Z :=
  let fl := Qfloor q in
  let fr := (q - inject_Z fl)%Q in
  if negb (Qle_bool (1 # 2) fr) then fl
  else if negb (Qle_bool fr (1 # 2)) then (fl + 1)%Z
  else if Z.even fl then fl else (fl + 1)%Z.

(** [utc_from_timestamp(p.get(key, 0) / 1000).isoformat()
     if isinstance(p.get(key), (int, float)) and p.get(key, 0) > 0 else None] *)
Definition ts_attr (props : pyval) (key : string) : result aval :=
  v <- py_get props key (PInt 0) ;;
  match num_of v with
  | Some q =>
      if Qle_bool q 0 then Ok (AV PNone)
      else if Qle_bool MAX_TIMESTAMP_S (q / 1000) then Err ValueError
      else Ok (ATime (round_half_even (q * 1000)))
  | None => Ok (AV PNone)
  end.

(** util.py: [get_geojson_properties_get_first_url]. *)
Definition get_geojson_properties_get_first_url (props : pyval) : pyval :=
  match props with
  | PDict d =>
      let from_web_links :=
        match dict_get d "webLinks" with
        | Some (PList (PDict fl :: _)) =>
            match dict_get fl "url" with Some (PStr u) => PStr u | _ => PNone end
        | Some (PList (PStr f :: _)) => PStr f
        | _ => PNone
        end in
      match dict_get d "weblinkUrl" with
      | Some (PStr s) => if String.eqb s "" then from_web_links else PStr s
      | _ => from_web_links
      end
  | _ => PNone
  end.

(** [[road.get("roadName") for road in roads
      if isinstance(road, dict) and road.get("roadName")]] *)
Definition road_names (roads : list pyval) : list pyval :=
  flat_map (fun road =>
              match road with
              | PDict rd =>
                  match dict_get rd "roadName" with
                  | Some n => if py_truthy n then [n] else []
                  | None => []
                  end
              | _ => []
              end) roads.

Definition get_or (props : pyval) (k : string) (default : pyval) : pyval :=
  match props with
  | PDict d => match dict_get d k with Some x => x | None => default end
  | _ => default
  end.

(** [update_state_and_attributes], lines 378-417: the attribute dict, in
    the order the literal evaluates it, then without its [None] values.
    [props] is the properties dict. *)
Definition compute_attrs (hazard_id : string) (props : pyval) : result attrs :=
  created <- ts_attr props "created" ;;
  last_updated <- ts_attr props "lastUpdated" ;;
  roads_v <- py_get props "roads" (PList []) ;;
  roads <- py_iter roads_v ;;
  start_time <- ts_attr props "start" ;;
  end_time <- ts_attr props "end" ;;
  let g k := AV (get_or props k PNone) in
  let mc := get_or props "mainCategory" PNone in
  let dn := match assoc_get HAZARD_TYPE_DISPLAY_NAME_MAP
                    (str_lower (py_str (get_or props "mainCategory" (PStr "")))) with
            | Some n => PStr n
            | None => PStr (py_str mc)
            end in
  let all : attrs :=
    [ ("hazard_id", AV (PStr hazard_id)); ("created", created);
      ("last_updated", last_updated); ("main_category", AV mc);
      ("sub_category_a", g "subCategoryA"); ("sub_category_b", g "subCategoryB");
      ("sub_category_c", g "subCategoryC"); ("sub_category_d", g "subCategoryD");
      ("roads", AV (PList (road_names roads)));
      ("location_qualifier", g "locationQualifier");
      ("start_time", start_time); ("end_time", end_time);
      ("duration_minutes", g "durationMinutes"); ("period_type", g "periodType");
      ("advice_a", g "adviceA"); ("advice_b", g "adviceB");
      ("other_advice", g "otherAdvice");
      ("web_link", AV (get_geojson_properties_get_first_url props));
      ("is_major", g "isMajor"); ("impact", g "impact");
      ("incident_dots_display", g "incidentDotsDisplay");
      ("display_order", g "displayOrder"); ("arr_status", g "arrStatus");
      ("imp_status", g "impStatus"); ("ended", AV (get_or props "ended" (PBool false)));
      ("is_event", AV (get_or props "isEvent" (PBool false)));
      ("hazard_type_dn", AV dn) ] in
  Ok (filter (fun kv => match snd kv with AV PNone => false | _ => true end) all).

(** The observable fields of [NswLiveTrafficHazardGeoLocationEntity]. *)
Record entity : Type := {
  e_hazard_id : string;
  e_name : pyval;
  e_lat : pyval;
  e_lon : pyval;
  e_attrs : attrs;
  e_entity_id : string
}.

Definition set_id (e : entity) (h : string) : entity :=
  {| e_hazard_id := h; e_name := e_name e; e_lat := e_lat e; e_lon := e_lon e;
     e_attrs := e_attrs e; e_entity_id := e_entity_id e |}.
Definition set_name (e : entity) (n : pyval) : entity :=
  {| e_hazard_id := e_hazard_id e; e_name := n; e_lat := e_lat e; e_lon := e_lon e;
     e_attrs := e_attrs e; e_entity_id := e_entity_id e |}.
Definition set_pos (e : entity) (la lo : pyval) : entity :=
  {| e_hazard_id := e_hazard_id e; e_name := e_name e; e_lat := la; e_lon := lo;
     e_attrs := e_attrs e; e_entity_id := e_entity_id e |}.
Definition set_attrs (e : entity) (a : attrs) : entity :=
  {| e_hazard_id := e_hazard_id e; e_name := e_name e; e_lat := e_lat e;
     e_lon := e_lon e; e_attrs := a; e_entity_id := e_entity_id e |}.

(** [update_hazard_data] followed by [update_state_and_attributes]: the
    entity is mutated field by field, so an exception leaves the fields
    assigned before it. *)
Definition update_hazard_data (e : entity) (d : pyval) : entity * option exn :=
  match py_get d "properties" (PDict []), py_get d "geometry" (PDict []),
        py_get d "id" PNone with
  | Err x, _, _ | _, Err x, _ | _, _, Err x => (e, Some x)
  | Ok props, Ok geometry, Ok root_id =>
      match py_get props "id" root_id with
      | Err x => (e, Some x)
      | Ok pid =>
          let hid0 := py_str pid in
          let hid :=
            if String.eqb hid0 "" then
              temp <- py_get props "headline" (PStr "unknown_hazard_entity") ;;
              cs <- py_get geometry "coordinates" (PList [PInt 0; PInt 0]) ;;
              c0 <- py_index cs 0 ;;
              slugify (PStr ("missingid_" ++ py_str temp ++ "_" ++ py_str c0))
            else Ok hid0 in
          match hid with
          | Err x => (e, Some x)
          | Ok h =>
              let e1 := set_id e h in
              match py_get props "headline" (PStr "Unknown Hazard") with
              | Err x => (e1, Some x)
              | Ok name =>
                  let e2 := set_name e1 name in
                  let pos :=
                    coordinates <- py_get geometry "coordinates" PNone ;;
                    if py_truthy coordinates then
                      n <- py_len coordinates ;;
                      if Nat.eqb n 2 then
                        la <- py_index coordinates 1 ;;
                        lo <- py_index coordinates 0 ;;
                        Ok (la, lo)
                      else Ok (PNone, PNone)
                    else Ok (PNone, PNone) in
                  match pos with
                  | Err x => (e2, Some x)
                  | Ok (la, lo) =>
                      let e3 := set_pos e2 la lo in
                      match compute_attrs h props with
                      | Err x => (e3, Some x)
                      | Ok a => (set_attrs e3 a, None)
                      end
                  end
              end
          end
      end
  end.

Definition DOMAIN : string := "nsw_live_traffic".

Definition blank_entity : entity :=
  {| e_hazard_id := ""; e_name := PStr "Unknown Hazard"; e_lat := PNone;
     e_lon := PNone; e_attrs := []; e_entity_id := "" |}.

(** The constructor, lines 299-337. *)
Definition construct (d : pyval) : result entity :=
  match update_hazard_data blank_entity d with
  | (_, Some x) => Err x
  | (e, None) =>
      slug <- slugify (if py_truthy (e_name e) then e_name e
                       else PStr (e_hazard_id e)) ;;
      Ok {| e_hazard_id := e_hazard_id e; e_name := e_name e; e_lat := e_lat e;
            e_lon := e_lon e; e_attrs := e_attrs e;
            e_entity_id := "geo_location." ++ DOMAIN ++ "_" ++ slug |}
  end.

(* ------------------------------------------------------------------ *)
(** ** geo_location.py: [update_entities] *)

(** A Home Assistant state: its attributes and its name. *)
Record hstate : Type := {
  st_attrs : list (string * pyval);
  st_name : pyval
}.

(** What [update_entities] reads besides the coordinator data and its own
    [tracked_entities]: the [zone.home] state, the options, and the
    states of the device trackers.  Radii are the numbers stored by the
    options flow. *)
Record env : Type := {
  zone_home : option hstate;
  home_radius_km : R;
  device_trackers : list string;
  device_radius_km : R;
  states : string -> option hstate
}.

Definition attr_or_none (a : list (string * pyval)) (k : string) : pyval :=
  match dict_get a k with Some x => x | None => PNone end.

(** Lines 81-86. *)
Definition home_coords (en : env) : pyval * pyval :=
  match zone_home en with
  | Some st =>
      match st_attrs st with
      | [] => (PNone, PNone)
      | a => (attr_or_none a "latitude", attr_or_none a "longitude")
      end
  | None => (PNone, PNone)
  end.

(** Lines 97-105: [device_locations], keyed by entity id. *)
Fixpoint device_locations_go (ids : list string) (states : string -> option hstate)
  (acc : list (string * (pyval * pyval))) : list (string * (pyval * pyval)) :=
  match ids with
  | [] => acc
  | eid :: r =>
      match states eid with
      | Some st =>
          let la := attr_or_none (st_attrs st) "latitude" in
          if is_none la then device_locations_go r states acc
          else device_locations_go r states
                 (assoc_insert eid (la, attr_or_none (st_attrs st) "longitude") acc)
      | None => device_locations_go r states acc
      end
  end.

Definition device_locations (en : env) : list (string * (pyval * pyval)) :=
  device_locations_go (device_trackers en) (states en) [].

(** Lines 129-133: the loop over the devices, [break] at the first one in
    range. *)
Fixpoint near_any_device (devs : list (string * (pyval * pyval))) (r : R)
  (hazard_lat hazard_lon : pyval) : result bool :=
  match devs with
  | [] => Ok false
  | (_, (la, lo)) :: rest =>
      d <- haversine_distance la lo hazard_lat hazard_lon ;;
      if xle d r then Ok true else near_any_device rest r hazard_lat hazard_lon
  end.

(** Lines 109-136, the body of the [try]: [Ok (Some id)] when the feature
    goes into [hazards_in_scope] under [id], [Ok None] on a [continue] or
    when it is not nearby. *)
Definition scope_check (en : env) (f : pyval) : result (option string) :=
  idv <- py_get f "id" PNone ;;
  let hazard_id := py_str idv in
  properties <- py_get f "properties" (PDict []) ;;
  geometry <- py_get f "geometry" (PDict []) ;;
  if String.eqb hazard_id "" || negb (py_truthy properties) || negb (py_truthy geometry)
  then Ok None
  else
    gtype <- py_get geometry "type" PNone ;;
    if negb (py_eq gtype (PStr "Point")) then Ok None
    else
      hazard_coords <- py_get geometry "coordinates" PNone ;;
      if negb (py_truthy hazard_coords) then Ok None
      else
        n <- py_len hazard_coords ;;
        if Nat.ltb n 2 then Ok None
        else
          hazard_lat <- py_index hazard_coords 1 ;;
          hazard_lon <- py_index hazard_coords 0 ;;
          let '(home_latitude, home_longitude) := home_coords en in
          is_near_home <-
            (if negb (is_none home_latitude) && negb (is_none home_longitude) then
               d <- haversine_distance home_latitude home_longitude hazard_lat hazard_lon ;;
               Ok (xle d (home_radius_km en))
             else Ok false) ;;
          is_near_device <-
            (if is_near_home then Ok false
             else near_any_device (device_locations en) (device_radius_km en)
                    hazard_lat hazard_lon) ;;
          Ok (if is_near_home || is_near_device then Some hazard_id else None).

(** Lines 107-139: an exception in the [try] skips the feature. *)
Fixpoint scope_loop (en : env) (fs : list pyval) (acc : list (string * pyval))
  : list (string * pyval) :=
  match fs with
  | [] => acc
  | f :: rest =>
      match scope_check en f with
      | Ok (Some hid) => scope_loop en rest (assoc_insert hid f acc)
      | _ => scope_loop en rest acc
      end
  end.

(** Lines 78-139: [hazards_in_scope].  Iterating [coordinator.data["features"]]
    happens outside the [try]; when it raises, so does the pass. *)
Definition hazards_in_scope (en : env) (data : option (list (string * pyval)))
  : result (list (string * pyval)) :=
  match data with
  | Some ((_ :: _) as d) =>
      match dict_get d "features" with
      | Some feats =>
          fs <- py_iter feats ;;
          Ok (scope_loop en fs [])
      | None => Ok []
      end
  | _ => Ok []
  end.

(** The bus events fired by the pass. *)
Inductive event : Type :=
| Appeared (hazard_id : string) (name lat lon : pyval) (attributes : attrs)
| Updated (hazard_id : string) (name lat lon : pyval) (attributes : attrs)
          (changes : list (string * (aval * aval)))
| Cleared (hazard_id : string) (name : pyval) (attributes : attrs).

Definition event_id (ev : event) : string :=
  match ev with
  | Appeared h _ _ _ _ | Updated h _ _ _ _ _ | Cleared h _ _ => h
  end.

Definition attr_get (a : attrs) (k : string) : aval :=
  match assoc_get a k with Some v => v | None => AV PNone end.

(** Lines 177-182: [changed_significant_attrs]. *)
Definition changed_significant_attrs (old new : attrs) : list (string * (aval * aval)) :=
  flat_map (fun k => if aval_eq (attr_get old k) (attr_get new k) then []
                     else [(k, (attr_get old k, attr_get new k))])
           SIGNIFICANT_ATTRIBUTE_KEYS.

Definition tracked : Type := list (string * entity).

Definition mem (k : string) (l : list string) : bool := existsb (String.eqb k) l.

(** Lines 144-195: new and updated hazards.  [cur] is
    [current_tracked_ids], taken before the loop.  A failing constructor
    is caught; a failing [update_hazard_data] is not, and ends the pass
    with the entity as far as it was mutated. *)
Fixpoint process_in_scope (cur : list string) (items : list (string * pyval))
  (te : tracked) (evs : list event) : tracked * list event * option exn :=
  match items with
  | [] => (te, evs, None)
  | (hid, d) :: rest =>
      if negb (mem hid cur) then
        match construct d with
        | Ok e =>
            process_in_scope cur rest (assoc_insert hid e te)
              (evs ++ [Appeared hid (e_name e) (e_lat e) (e_lon e) (e_attrs e)])
        | Err _ => process_in_scope cur rest te evs
        end
      else
        match assoc_get te hid with
        | None => (te, evs, Some KeyError)
        | Some e =>
            let old_attributes := e_attrs e in
            match update_hazard_data e d with
            | (e', Some x) => (assoc_insert hid e' te, evs, Some x)
            | (e', None) =>
                let te' := assoc_insert hid e' te in
                match changed_significant_attrs old_attributes (e_attrs e') with
                | [] => process_in_scope cur rest te' evs
                | ch =>
                    process_in_scope cur rest te'
                      (evs ++ [Updated hid (e_name e') (e_lat e') (e_lon e')
                                       (e_attrs e') ch])
                end
            end
        end
  end.

(** Lines 201-210: cleared hazards, [current_tracked_ids - active], visited
    in the order of [current_tracked_ids] (a set: its order is not fixed by
    the code).  Registry removal catches its own errors and changes
    nothing modelled here. *)
Fixpoint process_cleared (ids : list string) (te : tracked) (evs : list event)
  : tracked * list event * option exn :=
  match ids with
  | [] => (te, evs, None)
  | hid :: rest =>
      match assoc_get te hid with
      | None => (te, evs, Some KeyError)
      | Some e =>
          process_cleared rest (assoc_remove hid te)
            (evs ++ [Cleared hid (e_name e) (e_attrs e)])
      end
  end.

(** [update_entities]: the new [tracked_entities], the events fired, and
    the exception that ended the pass, if any. *)
Definition update_entities (en : env) (data : option (list (string * pyval)))
  (te : tracked) : tracked * list event * option exn :=
  let current_tracked_ids := map fst te in
  match hazards_in_scope en data with
  | Err x => (te, [], Some x)
  | Ok his =>
      let active := map fst his in
      match process_in_scope current_tracked_ids his te [] with
      | (te1, evs1, Some x) => (te1, evs1, Some x)
      | (te1, evs1, None) =>
          process_cleared
            (filter (fun h => negb (mem h active)) current_tracked_ids) te1 evs1
      end
  end.

End Geo.

(* ------------------------------------------------------------------ *)
(** ** sensor.py: [NswLiveTrafficNearbyHazardCountSensor.native_value] *)

Module Sensor.

Import Geo.

(** What [native_value] reads: [hass.config] coordinates, the options and
    the tracker states. *)
Record senv : Type := {
  config_latitude : pyval;
  config_longitude : pyval;
  s_home_radius_km : R;
  s_device_trackers : list string;
  s_device_radius_km : R;
  s_states : string -> option hstate
}.

Definition Rpos (r : R) : bool := if Rlt_dec 0 r then true else false.

(** Lines 180-189. *)
Fixpoint near_tracker (ids : list string) (se : senv) (hazard_lat hazard_lon : pyval)
  : result bool :=
  match ids with
  | [] => Ok false
  | t :: rest =>
      match s_states se t with
      | Some st =>
          let tla := attr_or_none (st_attrs st) "latitude" in
          let tlo := attr_or_none (st_attrs st) "longitude" in
          if py_truthy tla && py_truthy tlo then
            d <- haversine_distance tla tlo hazard_lat hazard_lon ;;
            if xle (xdiv1000 d) (s_device_radius_km se) then Ok true
            else near_tracker rest se hazard_lat hazard_lon
          else near_tracker rest se hazard_lat hazard_lon
      | None => near_tracker rest se hazard_lat hazard_lon
      end
  end.

(** Lines 155-197, the body of the [try]: the new
    ([nearby_hazard_count], [counted_hazard_ids]). *)
Definition count_step (se : senv) (hazard_type : string) (hazard : pyval)
  (st : Z * list string) : result (Z * list string) :=
  let '(count, counted) := st in
  properties <- py_get hazard "properties" (PDict []) ;;
  main_category <- py_get properties "mainCategory" PNone ;;
  if negb (py_eq main_category (PStr hazard_type)) then Ok st
  else
    idv <- py_get hazard "id" PNone ;;
    let hazard_id := py_str idv in
    geometry <- py_get hazard "geometry" (PDict []) ;;
    coordinates <- py_get geometry "coordinates" PNone ;;
    if negb (py_truthy coordinates) then Ok st
    else
      n <- py_len coordinates ;;
      if Nat.ltb n 2 then Ok st
      else
        hazard_lat <- py_index coordinates 1 ;;
        hazard_lon <- py_index coordinates 0 ;;
        near_home <-
          (if negb (is_none (config_latitude se)) && negb (is_none (config_longitude se))
              && Rpos (s_home_radius_km se) then
             d <- haversine_distance (config_latitude se) (config_longitude se)
                    hazard_lat hazard_lon ;;
             Ok (xle (xdiv1000 d) (s_home_radius_km se))
           else Ok false) ;;
        is_nearby <-
          (if negb near_home && Rpos (s_device_radius_km se) then
             near_tracker (s_device_trackers se) se hazard_lat hazard_lon
           else Ok near_home) ;;
        if is_nearby then
          if negb (String.eqb hazard_id "") && negb (mem hazard_id counted)
          then Ok ((count + 1)%Z, hazard_id :: counted)
          else if String.eqb hazard_id "" then Ok ((count + 1)%Z, counted)
          else Ok st
        else Ok st.

(** Lines 153-201: an exception skips the hazard. *)
Fixpoint count_loop (se : senv) (hazard_type : string) (hs : list pyval)
  (st : Z * list string) : Z * list string :=
  match hs with
  | [] => st
  | h :: rest =>
      match count_step se hazard_type h st with
      | Ok st' => count_loop se hazard_type rest st'
      | Err _ => count_loop se hazard_type rest st
      end
  end.

Definition native_value (se : senv) (hazard_type : string)
  (data : option (list (string * pyval))) : result Z :=
  match data with
  | Some ((_ :: _) as d) =>
      match dict_get d "features" with
      | Some (PList all_hazards) =>
          Ok (fst (count_loop se hazard_type all_hazards (0%Z, [])))
      | Some _ => Ok 0%Z
      | None => Ok 0%Z
      end
  | _ => Ok 0%Z
  end.

End Sensor.

(* ------------------------------------------------------------------ *)
(** ** util.py: [get_nested_value] *)

Module Util.

(** [path.split('.')]: every ['.'] separates two pieces, so [""] gives
    [[""]] and ["a..b"] gives [["a"; ""; "b"]]. *)
Fixpoint split_dot (s : string) : list string :=
  match s with
  | EmptyString => [""]
  | String c r =>
      match split_dot r with
      | [] => [String c ""]   (* not reached: a split has a piece *)
      | p :: ps => if Ascii.eqb c "." then "" :: p :: ps else String c p :: ps
      end
  end.

Definition is_digit (c : ascii) : bool :=
  let n := nat_of_ascii c in (48 <=? n)%nat && (n <=? 57)%nat.

(** [key.isdigit()] on ASCII text: non-empty and only the digits 0-9. *)
Definition isdigit (s : string) : bool :=
  match s with
  | EmptyString => false
  | _ => forallb is_digit (list_ascii_of_string s)
  end.

(** [int(key)] for a key that passed [isdigit]. *)
Definition int_of_digits (s : string) : N :=
  fold_left (fun acc c => (acc * 10 + (N.of_nat (nat_of_ascii c) - 48))%N)
            (list_ascii_of_string s) 0%N.

(** Lines 67-79: the loop over the keys; [None] stands for every
    [return default] (a key that is not there, an index out of bounds, a
    value that is neither a dict nor a list, or a caught [KeyError]). *)
Fixpoint nested_go (keys : list string) (current_level : pyval) : option pyval :=
  match keys with
  | [] => Some current_level
  | key :: rest =>
      match current_level with
      | PDict d =>
          match dict_get d key with
          | Some v => nested_go rest v
          | None => None
          end
      | PList l =>
          if isdigit key then
            let idx := int_of_digits key in
            if N.ltb idx (N.of_nat (List.length l)) then
              match nth_error l (N.to_nat idx) with
              | Some v => nested_go rest v
              | None => None
              end
            else None
          else None
      | _ => None
      end
  end.

(** Keys are ASCII text: Python's [isdigit] also accepts other Unicode
    digits, which this model does not cover. *)
Definition get_nested_value (data : pyval) (path : string) (default : pyval) : pyval :=
  match nested_go (split_dot path) data with
  | Some v => v
  | None => default
  end.

End Util.

(* ------------------------------------------------------------------ *)
(** ** config_flow.py *)

Module ConfigFlow.

Import Api Geo.

Definition DEFAULT_HAZARD_TYPES_API_PATHS : list string :=
  ["incident"; "roadwork"; "fire"; "flood"].
Definition DEFAULT_HOME_RADIUS_KM : pyval := PFloat 10 "10.0".
Definition DEFAULT_DEVICE_RADIUS_KM : pyval := PFloat 5 "5.0".
Definition DEFAULT_SCAN_INTERVAL_MINUTES : pyval := PInt 5.
Definition MIN_SCAN_INTERVAL_MINUTES : Q := 1.

(** A flow step's outcome: [async_create_entry] or [async_show_form]
    ([_abort_if_unique_id_configured] aborts the flow). *)
Inductive flow_result : Type :=
| CreateEntry (title : string) (data : list (string * pyval))
              (options : list (string * pyval))
| ShowForm (step_id : string) (errors : list (string * string))
| AbortFlow (reason : string).

(** [_validate_api_key], lines 40-60.  [async_get_hazards] raises no
    [ApiForbiddenError] and no other [ApiError], so every exception other
    than [InvalidApiKeyError] lands in the last handler. *)
Definition validate_api_key (net : network) (api_key : string) : option string :=
  match async_get_hazards api_key net DEFAULT_HAZARD_TYPES_API_PATHS with
  | Ok _ => None
  | Err InvalidApiKeyError => Some "invalid_auth"
  | Err _ => Some "unknown"
  end.

(** The key as the client's [if not self._api_key] sees it: the empty
    text exactly when the value is falsy (the form's schema makes it a
    [str]). *)
Definition api_key_text (v : pyval) : string :=
  if py_truthy v then py_str v else "".

Definition default_options : list (string * pyval) :=
  [ ("hazard_types", PList (map PStr DEFAULT_HAZARD_TYPES_API_PATHS));
    ("home_radius", DEFAULT_HOME_RADIUS_KM);
    ("device_trackers", PList []);
    ("device_radius", DEFAULT_DEVICE_RADIUS_KM);
    ("scan_interval", DEFAULT_SCAN_INTERVAL_MINUTES) ].

(** [async_step_user], lines 62-106; [already_configured] is whether an
    entry with the unique id [DOMAIN] exists. *)
Definition async_step_user (already_configured : bool) (net : network)
  (user_input : option (list (string * pyval))) : result flow_result :=
  match user_input with
  | None => Ok (ShowForm "user" [])
  | Some ui =>
      match dict_get ui "api_key" with
      | None => Err KeyError
      | Some api_key =>
          if already_configured then Ok (AbortFlow "already_configured")
          else
            match validate_api_key net (api_key_text api_key) with
            | Some err => Ok (ShowForm "user" [("base", err)])
            | None => Ok (CreateEntry "NSW Live Traffic" ui default_options)
            end
      end
  end.

(** [isinstance(v, (int, float))] and [isinstance(v, int)]: bool is an int. *)
Definition is_int_or_float (v : pyval) : bool :=
  match v with PBool _ | PInt _ | PFloat _ _ => true | _ => false end.

Definition is_int (v : pyval) : bool :=
  match v with PBool _ | PInt _ => true | _ => false end.

(** [v < c] for a number [v]. *)
Definition num_lt (v : pyval) (c : Q) : bool :=
  match num_of v with Some q => negb (Qle_bool c q) | None => false end.

Definition get_default (d : list (string * pyval)) (k : string) (default : pyval) : pyval :=
  match dict_get d k with Some v => v | None => default end.

(** Lines 131-141: the [errors] dict, in insertion order. *)
Definition options_errors (user_input : list (string * pyval)) : list (string * string) :=
  let home_radius := get_default user_input "home_radius" DEFAULT_HOME_RADIUS_KM in
  let device_radius := get_default user_input "device_radius" DEFAULT_DEVICE_RADIUS_KM in
  let scan_interval := get_default user_input "scan_interval" DEFAULT_SCAN_INTERVAL_MINUTES in
  (if negb (is_int_or_float home_radius) || num_lt home_radius 0
   then [("home_radius", "invalid_radius")] else [])
  ++ (if negb (is_int_or_float device_radius) || num_lt device_radius 0
      then [("device_radius", "invalid_radius")] else [])
  ++ (if negb (is_int scan_interval) || num_lt scan_interval MIN_SCAN_INTERVAL_MINUTES
      then [("scan_interval", "invalid_scan_interval")] else []).

(** [d.update(u)]: each key of [u] in turn, an existing key keeping its
    position. *)
Definition dict_update (d u : list (string * pyval)) : list (string * pyval) :=
  fold_left (fun acc kv => assoc_insert (fst kv) (snd kv) acc) u d.

(** [NswLiveTrafficOptionsFlowHandler.async_step_init], lines 125-146;
    [options] is [self.options], the copy of the entry's options. *)
Definition options_step_init (options : list (string * pyval))
  (user_input : option (list (string * pyval))) : flow_result :=
  match user_input with
  | None => ShowForm "init" []
  | Some ui =>
      match options_errors ui with
      | [] => CreateEntry "" (dict_update options ui) []
      | errors => ShowForm "init" errors
      end
  end.

End ConfigFlow.

(* ------------------------------------------------------------------ *)
(** ** sensor.py: [async_setup_entry] *)

Module SensorSetup.

Import Geo.












End SensorSetup.

(* ------------------------------------------------------------------ *)
(** ** Reading the code against the spec *)

Module Facts.

Import Api Geo.

(** The text under which [async_get_hazards] deduplicates a feature:
    [str(feature.get("id"))]. *)
Definition feature_key (f : pyval) : string :=
  match py_get f "id" PNone with Ok v => py_str v | Err _ => "" end.

(** The merge as the spec words it: a record is kept when it has no id
    (empty key) or when no earlier record carries the same id; kept
    records stay in input order.  [earlier] holds every record before the
    current one, kept or not. *)
Definition keep_record (f : pyval) (earlier : list pyval) : bool :=
  String.eqb (feature_key f) "" ||
  negb (existsb (fun g => String.eqb (feature_key g) (feature_key f)) earlier).

Fixpoint merge_go (earlier l : list pyval) : list pyval :=
  match l with
  | [] => []
  | f :: rest =>
      (if keep_record f earlier then [f] else []) ++ merge_go (earlier ++ [f]) rest
  end.

Definition merge_spec (l : list pyval) : list pyval := merge_go [] l.

Definition nonempty_keys (l : list pyval) : list string :=
  filter (fun k => negb (String.eqb k "")) (map feature_key l).

(** The feature list a category's variant loop hands to the merge loop:
    the one of the first variant that passes every check before a 401
    or 403 stops the loop (empty when none does), with the request count. *)
Fixpoint accepted_features (net : network) (eps : list string) (n : nat)
  : list pyval * nat :=
  match eps with
  | [] => ([], n)
  | url :: rest =>
      match net n url with
      | Resp r =>
          if Z.eqb (status r) 401 then ([], S n)
          else if Z.eqb (status r) 403 then ([], S n)
          else if Z.leb 400 (status r) then accepted_features net rest (S n)
          else if negb (text_ok r) then accepted_features net rest (S n)
          else match json_body r with
               | None => accepted_features net rest (S n)
               | Some j =>
                   if dict_has j "features" then
                     match py_get j "features" (PList []) with
                     | Ok (PList fs) => (fs, S n)
                     | _ => accepted_features net rest (S n)
                     end
                   else accepted_features net rest (S n)
               end
      | _ => accepted_features net rest (S n)
      end
  end.

Fixpoint category_lists (net : network) (paths : list string) (n : nat)
  : list (list pyval) :=
  match paths with
  | [] => []
  | seg :: rest =>
      let '(fs, n') := accepted_features net (endpoints_to_try seg) n in
      fs :: category_lists net rest n'
  end.

(** Every feature list the server sends holds Feature objects (dicts). *)
Definition dict_features (net : network) : Prop :=
  forall n url r d fs,
    net n url = Resp r -> json_body r = Some (PDict d) ->
    dict_get d "features" = Some (PList fs) -> forallb is_dict fs = true.

(** The reference points of a pass with their radii: the home zone when
    both its coordinates are set, then the located device trackers. *)
Definition ref_points (en : env) : list (pyval * pyval * R) :=
  let '(hla, hlo) := home_coords en in
  (if negb (is_none hla) && negb (is_none hlo)
   then [(hla, hlo, home_radius_km en)] else [])
  ++ map (fun p => (fst (snd p), snd (snd p), device_radius_km en))
         (device_locations en).

(** [distance(point, record) <= radius]. *)
Definition within (p : pyval * pyval * R) (lat lon : pyval) : bool :=
  let '(la, lo, r) := p in
  match haversine_distance la lo lat lon with
  | Ok d => xle d r
  | Err _ => false
  end.

(** A coordinate the distance function accepts: a number or [None]. *)
Definition coord_ok (v : pyval) : bool :=
  is_none v || match num_of v with Some _ => true | None => false end.

Definition ref_coords_ok (en : env) : bool :=
  forallb (fun p => let '(la, lo, _) := p in coord_ok la && coord_ok lo)
          (ref_points en).

Definition appeared_ids (evs : list event) : list string :=
  flat_map (fun ev => match ev with Appeared h _ _ _ _ => [h] | _ => [] end) evs.

Definition cleared_ids (evs : list event) : list string :=
  flat_map (fun ev => match ev with Cleared h _ _ => [h] | _ => [] end) evs.

(** For the second of two passes over the same in-scope items: every item
    up to the first whose update raises leaves the tracked state as it is. *)
Fixpoint quiet_upto (te : tracked) (items : list (string * pyval)) : Prop :=
  match items with
  | [] => True
  | (h, d) :: r =>
      match assoc_get te h with
      | Some e =>
          match update_hazard_data e d with
          | (_, Some _) => True
          | (e', None) =>
              changed_significant_attrs (e_attrs e) (e_attrs e') = [] /\
              quiet_upto te r
          end
      | None => (exists x, construct d = Err x) /\ quiet_upto te r
      end
  end.

Fixpoint fails_somewhere (te : tracked) (items : list (string * pyval)) : Prop :=
  match items with
  | [] => False
  | (h, d) :: r =>
      match assoc_get te h with
      | Some e =>
          match update_hazard_data e d with
          | (_, Some _) => True
          | (_, None) => fails_somewhere te r
          end
      | None => fails_somewhere te r
      end
  end.

End Facts.

(* ------------------------------------------------------------------ *)
(** ** Concrete inputs *)

Module Inputs.

Import Api Geo.

Definition resp200 (j : pyval) : outcome :=
  Resp {| status := 200; text_ok := true; json_body := Some j |}.

Definition resp_status (s : Z) : outcome :=
  Resp {| status := s; text_ok := true; json_body := None |}.

(** A GeoJSON point feature. *)
Definition feat (id : list (string * pyval)) (props : list (string * pyval))
  (lon lat : pyval) : pyval :=
  PDict (id ++ [("properties", PDict props);
                ("geometry", PDict [("type", PStr "Point");
                                    ("coordinates", PList [lon; lat])])]).

Definition fA1 : pyval :=
  feat [("id", PStr "A1")]
       [("headline", PStr "Crash"); ("mainCategory", PStr "accident");
        ("adviceA", PStr "Slow down")]
       (PInt 0) (PInt 0).

Definition fA1_roadwork : pyval :=
  feat [("id", PStr "A1")] [("headline", PStr "Lane closed")] (PInt 0) (PInt 0).

Definition fB2 : pyval :=
  feat [("id", PStr "B2")] [("headline", PStr "Fire")] (PInt 151) (PInt (-33)).

(** A feature without an [id] key. *)
Definition f_noid : pyval :=
  feat [] [("headline", PStr "Flooding")] (PInt 0) (PInt 0).

(** A feature whose [roads] property is JSON null. *)
Definition f_null_roads : pyval :=
  feat [("id", PStr "C3")] [("headline", PStr "Breakdown"); ("roads", PNone)]
       (PInt 0) (PInt 0).

(** A feature with an empty properties dict. *)
Definition f_noprops : pyval :=
  feat [("id", PStr "D4")] [] (PInt 0) (PInt 0).

Definition collection (fs : list pyval) : pyval :=
  PDict [("type", PStr "FeatureCollection"); ("features", PList fs)].

Definition data_of (fs : list pyval) : option (list (string * pyval)) :=
  Some [("type", PStr "FeatureCollection"); ("features", PList fs)].

(** The server answers every request with 401. *)
Definition net401 : network := fun _ _ => resp_status 401.

(** "/incident/open" and "/roadwork/open" both carry a feature "A1";
    "/roadwork/open" also carries "B2". *)
Definition net_overlap : network :=
  fun _ url =>
    if String.eqb url (API_ENDPOINT_BASE ++ "/incident/open")
    then resp200 (collection [fA1])
    else if String.eqb url (API_ENDPOINT_BASE ++ "/roadwork/open")
    then resp200 (collection [fA1_roadwork; fB2])
    else resp_status 400.

(** Two id-less features with identical content. *)
Definition net_noid : network := fun _ _ => resp200 (collection [f_noid; f_noid]).

(** Home zone at (0, 0) with the given home radius, no device trackers. *)
Definition env_home (r : R) : env :=
  {| zone_home := Some {| st_attrs := [("latitude", PInt 0); ("longitude", PInt 0)];
                          st_name := PStr "Home" |};
     home_radius_km := r;
     device_trackers := [];
     device_radius_km := 5%R;
     states := fun _ => None |}.

Definition senv_home (r : R) : Sensor.senv :=
  {| Sensor.config_latitude := PInt 0; Sensor.config_longitude := PInt 0;
     Sensor.s_home_radius_km := r; Sensor.s_device_trackers := [];
     Sensor.s_device_radius_km := 5%R; Sensor.s_states := fun _ => None |}.

End Inputs.

(* ================================================================== *)
(** * Theorems *)

Module DistanceFacts.

Open Scope R_scope.

Lemma haversine_km_same (a b : R) : haversine_km a b a b = 0.
Proof.
  unfold haversine_km.
  rewrite !Rminus_diag.
  replace (0 / 2) with 0 by (unfold Rdiv; ring).
  rewrite sin_0.
  replace (0 ^ 2 + cos (radians a) * cos (radians a) * 0 ^ 2) with 0 by ring.
  rewrite sqrt_0, Rminus_0_r, sqrt_1.
  unfold atan2. destruct (Rlt_dec 0 1) as [_|H]; [|lra].
  replace (0 / 1) with 0 by (unfold Rdiv; ring).
  rewrite atan_0. ring.
Qed.

Lemma haversine_distance_same_point (z w : Z) :
  haversine_distance (PInt z) (PInt w) (PInt z) (PInt w) = Ok (Fin 0).
Proof.
  unfold haversine_distance. simpl. rewrite haversine_km_same. reflexivity.
Qed.

Lemma existsb_is_none_In (l : list pyval) :
  In PNone l -> existsb is_none l = true.
Proof.
  intros H. apply existsb_exists. exists PNone. split; [exact H | reflexivity].
Qed.

(** C9: when any of the four coordinates is [None], [haversine_distance]
    returns [inf] without raising, and [inf <= r] fails for every finite
    radius [r]. *)
Theorem haversine_none_is_inf (lat1 lon1 lat2 lon2 : pyval)
  (H : In PNone [lat1; lon1; lat2; lon2]) :
  haversine_distance lat1 lon1 lat2 lon2 = Ok PosInf /\
  (forall r : R, xle PosInf r = false).
Proof.
  split.
  - unfold haversine_distance. rewrite (existsb_is_none_In _ H). reflexivity.
  - intros r. reflexivity.
Qed.

Lemma haversine_none_is_inf_witness :
  In PNone [PNone; PInt 151; PInt (-33); PInt 151] /\
  haversine_distance PNone (PInt 151) (PInt (-33)) (PInt 151) = Ok PosInf /\
  (forall r : R, xle PosInf r = false).
Proof.
  split; [simpl; auto|].
  apply (haversine_none_is_inf PNone (PInt 151) (PInt (-33)) (PInt 151)).
  simpl; auto.
Defined.

Close Scope R_scope.

End DistanceFacts.

Module ScopeFacts.

Import Geo Inputs.

Lemma scope_check_A1 (r : R) (Hr : (0 <= r)%R) :
  scope_check (env_home r) fA1 = Ok (Some "A1").
Proof.
  unfold scope_check. cbn -[haversine_distance].
  rewrite DistanceFacts.haversine_distance_same_point. cbn -[Rle_dec].
  destruct (Rle_dec 0 r); [reflexivity | lra].
Qed.

Lemma hazards_in_scope_A1 (r : R) (Hr : (0 <= r)%R) :
  hazards_in_scope (env_home r) (data_of [fA1]) = Ok [("A1", fA1)].
Proof.
  unfold hazards_in_scope. cbn -[scope_check].
  rewrite (scope_check_A1 r Hr). reflexivity.
Qed.

End ScopeFacts.

Module Runs.

Import Api Geo Inputs Facts ScopeFacts.

(** The entity built for [fA1]. *)
Definition entity_A1 : entity :=
  match construct fA1 with Ok e => e | Err _ => blank_entity end.

Lemma construct_fA1 : construct fA1 = Ok entity_A1.
Proof. vm_compute. reflexivity. Qed.

Lemma pass_A1 (r : R) (Hr : (0 <= r)%R) :
  update_entities (env_home r) (data_of [fA1]) [] =
  ([("A1", entity_A1)],
   [Appeared "A1" (e_name entity_A1) (e_lat entity_A1) (e_lon entity_A1)
             (e_attrs entity_A1)],
   None).
Proof.
  unfold update_entities. rewrite (hazards_in_scope_A1 r Hr).
  vm_compute. reflexivity.
Qed.

(** C1: on a 401 from every endpoint variant, [async_get_hazards] does not
    raise: it returns an empty FeatureCollection, the coordinator accepts
    it as fresh data, and the next diff pass clears every tracked hazard
    (here "A1", tracked by the previous pass) instead of leaving the
    tracked state unchanged. *)
Theorem auth_failure_clears_tracked :
  async_get_hazards "key" net401 ["fire"] = Ok (feature_collection []) /\
  Coordinator.async_update_data (async_get_hazards "key" net401 ["fire"])
    = Ok (feature_collection []) /\
  match update_entities (env_home 5) (data_of [fA1]) [] with
  | (te1, evs1, err1) =>
      map fst te1 = ["A1"] /\ appeared_ids evs1 = ["A1"] /\ err1 = None /\
      match update_entities (env_home 5)
              (Coordinator.refresh (data_of [fA1])
                 (async_get_hazards "key" net401 ["fire"])) te1 with
      | (te2, evs2, err2) =>
          te2 = [] /\ map event_id evs2 = ["A1"] /\ cleared_ids evs2 = ["A1"] /\
          err2 = None
      end
  end.
Proof.
  split; [vm_compute; reflexivity|].
  split; [vm_compute; reflexivity|].
  rewrite (pass_A1 5) by lra.
  vm_compute. repeat split; reflexivity.
Qed.

(** C2: a feature without [id] gets the key [str(None) = "None"], so a
    second id-less feature is dropped as a duplicate: two id-less records
    with identical content give one record in the merged result. *)
Theorem idless_records_deduplicated :
  async_get_hazards "key" net_noid ["flood"] = Ok (feature_collection [f_noid]).
Proof. vm_compute. reflexivity. Qed.

(** C8: with a home radius of 0 the geo_location pass has no [> 0] gate:
    a hazard at distance exactly 0 from home is in scope and appears,
    while the count sensor, which gates on [home_radius_km > 0], does not
    count it. *)
Theorem zero_radius_point_not_disabled :
  hazards_in_scope (env_home 0) (data_of [fA1]) = Ok [("A1", fA1)] /\
  appeared_ids (snd (fst (update_entities (env_home 0) (data_of [fA1]) []))) = ["A1"] /\
  Sensor.native_value (senv_home 0) "accident" (data_of [fA1]) = Ok 0%Z.
Proof.
  split; [apply hazards_in_scope_A1; lra|].
  split; [rewrite (pass_A1 0) by lra; reflexivity|].
  unfold Sensor.native_value. cbn -[Sensor.Rpos].
  unfold Sensor.Rpos. destruct (Rlt_dec 0 0); [lra|].
  destruct (Rlt_dec 0 5); reflexivity.
Qed.

End Runs.

Module SensorFacts.

Import Geo Sensor.

Ltac split_result H :=
  repeat match type of H with
  | context [match ?x with _ => _ end] =>
      let E := fresh "E" in destruct x eqn:E
  end.

Lemma count_step_mono (se : senv) (ht : string) (h : pyval) (st st' : Z * list string) :
  count_step se ht h st = Ok st' -> (fst st <= fst st')%Z.
Proof.
  destruct st as [c l]. unfold count_step, bind. intros H.
  split_result H; try discriminate H; injection H as <-; simpl; lia.
Qed.

Lemma count_loop_mono (se : senv) (ht : string) (hs : list pyval) :
  forall st, (fst st <= fst (count_loop se ht hs st))%Z.
Proof.
  induction hs as [|h rest IH]; intros st; simpl; [lia|].
  destruct (count_step se ht h st) as [st'|x] eqn:E.
  - apply count_step_mono in E. specialize (IH st'). lia.
  - apply IH.
Qed.

(** C10: [native_value] always returns a non-negative integer and never
    raises; absent data, a missing ["features"] key or a non-list
    ["features"] value give 0, and a hazard whose processing raises is
    skipped while the count goes on with the next one. *)
Theorem native_value_total (se : senv) (hazard_type : string) :
  (forall data, exists n, native_value se hazard_type data = Ok n /\ (0 <= n)%Z) /\
  native_value se hazard_type None = Ok 0%Z /\
  (forall d, dict_get d "features" = None ->
     native_value se hazard_type (Some d) = Ok 0%Z) /\
  (forall d v, dict_get d "features" = Some v -> (forall l, v <> PList l) ->
     native_value se hazard_type (Some d) = Ok 0%Z) /\
  (forall h rest st x, count_step se hazard_type h st = Err x ->
     count_loop se hazard_type (h :: rest) st = count_loop se hazard_type rest st).
Proof.
  split; [|split; [reflexivity|split; [|split]]].
  - intros data. unfold native_value.
    destruct data as [[|kv d]|]; try (eexists; split; [reflexivity|lia]).
    match goal with |- context [match dict_get ?l "features" with _ => _ end] =>
      destruct (dict_get l "features") as [[]|] end;
      try (eexists; split; [reflexivity|lia]).
    eexists; split; [reflexivity|].
    pose proof (count_loop_mono se hazard_type l (0%Z, [])). simpl in H. exact H.
  - intros d Hd. unfold native_value. destruct d; [reflexivity|]. cbv beta iota. rewrite Hd. reflexivity.
  - intros d v Hd Hv. unfold native_value. destruct d; [reflexivity|]. cbv beta iota. rewrite Hd.
    destruct v; try reflexivity. exfalso. exact (Hv l eq_refl).
  - intros h rest st x Hx. simpl. rewrite Hx. reflexivity.
Qed.

End SensorFacts.

Module AssocFacts.

Import Geo.

Section Assoc.

Context {A : Type}.

Implicit Types (l : list (string * A)) (k x : string) (v : A).

Lemma assoc_insert_keys k v l x :
  In x (map fst (assoc_insert k v l)) <-> k = x \/ In x (map fst l).
Proof.
  induction l as [|[k' v'] r IH]; simpl.
  - tauto.
  - destruct (String.eqb_spec k k') as [->|Hne]; simpl.
    + tauto.
    + rewrite IH. tauto.
Qed.

Lemma assoc_insert_nodup k v l :
  NoDup (map fst l) -> NoDup (map fst (assoc_insert k v l)).
Proof.
  induction l as [|[k' v'] r IH]; simpl; intros H.
  - constructor; [intros []|constructor].
  - inversion H as [|? ? Hn Hd]; subst.
    destruct (String.eqb_spec k k') as [->|Hne]; simpl.
    + constructor; assumption.
    + constructor; [|apply IH; assumption].
      rewrite assoc_insert_keys. intros [->|Hin]; [congruence|contradiction].
Qed.

Lemma assoc_get_insert k v l x :
  assoc_get (assoc_insert k v l) x = if String.eqb x k then Some v else assoc_get l x.
Proof.
  induction l as [|[k' v'] r IH]; simpl.
  - destruct (String.eqb x k); reflexivity.
  - destruct (String.eqb_spec k k') as [->|Hne]; simpl.
    + destruct (String.eqb x k'); reflexivity.
    + rewrite IH.
      destruct (String.eqb_spec x k); destruct (String.eqb_spec x k');
        try reflexivity; subst; congruence.
Qed.

Lemma assoc_get_none l x : ~ In x (map fst l) -> assoc_get l x = None.
Proof.
  induction l as [|[k' v'] r IH]; simpl; intros H; [reflexivity|].
  destruct (String.eqb_spec x k') as [->|]; [tauto|]. apply IH. tauto.
Qed.

Lemma assoc_get_some_in l x v : assoc_get l x = Some v -> In x (map fst l).
Proof.
  induction l as [|[k' v'] r IH]; simpl; intros H; [discriminate|].
  destruct (String.eqb_spec x k') as [->|]; [left; reflexivity|right; eauto].
Qed.

Lemma assoc_get_in l x : In x (map fst l) -> exists v, assoc_get l x = Some v.
Proof.
  induction l as [|[k' v'] r IH]; simpl; intros H; [contradiction|].
  destruct (String.eqb_spec x k') as [->|Hne]; [eauto|].
  apply IH. destruct H; [congruence|assumption].
Qed.

Lemma assoc_remove_keys_sub k l x :
  In x (map fst (assoc_remove k l)) -> In x (map fst l).
Proof.
  induction l as [|[k' v'] r IH]; simpl; [tauto|].
  destruct (String.eqb k k'); simpl; tauto.
Qed.

Lemma assoc_remove_keys k l x :
  NoDup (map fst l) ->
  (In x (map fst (assoc_remove k l)) <-> x <> k /\ In x (map fst l)).
Proof.
  induction l as [|[k' v'] r IH]; simpl; intros H; [tauto|].
  inversion H as [|? ? Hn Hd]; subst.
  destruct (String.eqb_spec k k') as [->|Hne]; simpl.
  - split.
    + intros Hx. split; [intros ->; contradiction|right; exact Hx].
    + intros [Hx [->|Hx']]; [congruence|exact Hx'].
  - rewrite (IH Hd). split.
    + intros [->|[Hx Hx']]; [split; [congruence|left; reflexivity]|tauto].
    + intros [Hx [->|Hx']]; [left; reflexivity|right; tauto].
Qed.

Lemma assoc_remove_nodup k l :
  NoDup (map fst l) -> NoDup (map fst (assoc_remove k l)).
Proof.
  induction l as [|[k' v'] r IH]; simpl; intros H; [constructor|].
  inversion H as [|? ? Hn Hd]; subst.
  destruct (String.eqb k k'); simpl; [exact Hd|].
  constructor; [|apply IH; exact Hd].
  intros Hin. apply Hn. eapply assoc_remove_keys_sub. exact Hin.
Qed.

Lemma assoc_get_remove k l x :
  NoDup (map fst l) ->
  assoc_get (assoc_remove k l) x = if String.eqb x k then None else assoc_get l x.
Proof.
  induction l as [|[k' v'] r IH]; simpl; intros H.
  - destruct (String.eqb x k); reflexivity.
  - inversion H as [|? ? Hn Hd]; subst.
    destruct (String.eqb_spec k k') as [Hk|Hne]; simpl.
    + subst k. destruct (String.eqb_spec x k') as [Hx|Hx];
        [subst x; apply assoc_get_none; exact Hn|reflexivity].
    + rewrite (IH Hd).
      destruct (String.eqb_spec x k); destruct (String.eqb_spec x k');
        try reflexivity; subst; congruence.
Qed.

End Assoc.

Lemma mem_In (k : string) (l : list string) : mem k l = true <-> In k l.
Proof.
  unfold mem. rewrite existsb_exists. split.
  - intros [y [Hy He]]. apply String.eqb_eq in He. subst. exact Hy.
  - intros H. exists k. split; [exact H|apply String.eqb_refl].
Qed.

Lemma NoDup_snoc {T} (l : list T) (x : T) : NoDup l -> ~ In x l -> NoDup (l ++ [x]).
Proof.
  induction l as [|a r IH]; simpl; intros H Hx.
  - constructor; [intros []|constructor].
  - inversion H; subst. constructor.
    + rewrite in_app_iff. simpl. intros [Ha|[Ha|[]]]; [contradiction|]. apply Hx; left; auto.
    + apply IH; [assumption|]. intros Hr; apply Hx; right; exact Hr.
Qed.

End AssocFacts.

Module PassFacts.

Import Geo Facts AssocFacts.

Lemma scope_loop_nodup (en : env) (fs : list pyval) :
  forall acc, NoDup (map fst acc) -> NoDup (map fst (scope_loop en fs acc)).
Proof.
  induction fs as [|f rest IH]; simpl; intros acc H; [exact H|].
  destruct (scope_check en f) as [[hid|]|x]; apply IH; try exact H.
  apply assoc_insert_nodup. exact H.
Qed.

Lemma hazards_in_scope_nodup (en : env) data his :
  hazards_in_scope en data = Ok his -> NoDup (map fst his).
Proof.
  unfold hazards_in_scope. intros H.
  destruct data as [[|kv d]|]; try (injection H as <-; constructor).
  destruct (dict_get (kv :: d) "features") as [feats|]; [|injection H as <-; constructor].
  unfold bind in H. destruct (py_iter feats) as [fs|x]; [|discriminate].
  injection H as <-. apply scope_loop_nodup. constructor.
Qed.

(** Events of the in-scope loop carry distinct ids, all from the items. *)
Lemma process_in_scope_events (cur : list string) (items : list (string * pyval)) :
  forall te evs te' evs' err,
    NoDup (map fst items) -> NoDup (map event_id evs) ->
    (forall h, In h (map event_id evs) -> ~ In h (map fst items)) ->
    process_in_scope cur items te evs = (te', evs', err) ->
    NoDup (map event_id evs') /\
    (forall h, In h (map event_id evs') -> In h (map event_id evs) \/ In h (map fst items)).
Proof.
  induction items as [|[hid d] rest IH]; simpl; intros te evs te' evs' err Hi He Hd Hp.
  - injection Hp as <- <- <-. split; [exact He|tauto].
  - inversion Hi as [|? ? Hn Hr]; subst.
    assert (Hsnoc : forall ev, event_id ev = hid ->
              NoDup (map event_id (evs ++ [ev])) /\
              (forall h, In h (map event_id (evs ++ [ev])) -> ~ In h (map fst rest))).
    { intros ev Hev. rewrite map_app. simpl. rewrite Hev. split.
      - apply NoDup_snoc; [exact He|]. intros Hin. apply (Hd hid Hin). left; reflexivity.
      - intros h. rewrite in_app_iff. simpl. intros [Hin|[<-|[]]]; [|exact Hn].
        intros Hr'. apply (Hd h Hin). right; exact Hr'. }
    assert (Hkeep : forall h, In h (map event_id evs) -> ~ In h (map fst rest)).
    { intros h Hin Hr'. apply (Hd h Hin). right; exact Hr'. }
    assert (Hwiden : forall l, (forall h, In h (map event_id l) -> In h (map event_id evs) \/ hid = h) ->
              forall evs'', (forall h, In h (map event_id evs'') ->
                                In h (map event_id l) \/ In h (map fst rest)) ->
              forall h, In h (map event_id evs'') ->
                In h (map event_id evs) \/ hid = h \/ In h (map fst rest)).
    { intros l Hl evs'' H h Hin. destruct (H h Hin) as [H1|H1]; [|tauto].
      destruct (Hl h H1); tauto. }
    destruct (negb (mem hid cur)).
    + destruct (construct d) as [e|x].
      * destruct (Hsnoc (Appeared hid (e_name e) (e_lat e) (e_lon e) (e_attrs e)) eq_refl)
          as [Hs1 Hs2].
        destruct (IH _ _ _ _ _ Hr Hs1 Hs2 Hp) as [H1 H2]. split; [exact H1|].
        eapply Hwiden; [|exact H2]. intros h Hh.
        rewrite map_app, in_app_iff in Hh. simpl in Hh. tauto.
      * destruct (IH _ _ _ _ _ Hr He Hkeep Hp) as [H1 H2]. split; [exact H1|].
        intros h Hh. destruct (H2 h Hh); tauto.
    + destruct (assoc_get te hid) as [e|].
      * destruct (update_hazard_data e d) as [e' [x|]].
        -- injection Hp as <- <- <-. split; [exact He|tauto].
        -- destruct (changed_significant_attrs (e_attrs e) (e_attrs e')) as [|c cs].
           ++ destruct (IH _ _ _ _ _ Hr He Hkeep Hp) as [H1 H2]. split; [exact H1|].
              intros h Hh. destruct (H2 h Hh); tauto.
           ++ destruct (Hsnoc (Updated hid (e_name e') (e_lat e') (e_lon e') (e_attrs e')
                                 (c :: cs)) eq_refl) as [Hs1 Hs2].
              destruct (IH _ _ _ _ _ Hr Hs1 Hs2 Hp) as [H1 H2]. split; [exact H1|].
              eapply Hwiden; [|exact H2]. intros h Hh.
              rewrite map_app, in_app_iff in Hh. simpl in Hh. tauto.
      * injection Hp as <- <- <-. split; [exact He|tauto].
Qed.

Lemma process_cleared_events (ids : list string) :
  forall te evs te' evs' err,
    NoDup ids -> NoDup (map event_id evs) ->
    (forall h, In h (map event_id evs) -> ~ In h ids) ->
    process_cleared ids te evs = (te', evs', err) ->
    NoDup (map event_id evs').
Proof.
  induction ids as [|hid rest IH]; simpl; intros te evs te' evs' err Hi He Hd Hp.
  - injection Hp as <- <- <-. exact He.
  - inversion Hi as [|? ? Hn Hr]; subst.
    destruct (assoc_get te hid) as [e|]; [|injection Hp as <- <- <-; exact He].
    eapply IH; [exact Hr| | |exact Hp].
    + rewrite map_app. apply NoDup_snoc; [exact He|]. intros Hin.
      apply (Hd hid Hin). left; reflexivity.
    + intros h. rewrite map_app, in_app_iff. simpl. intros [Hin|[<-|[]]]; [|exact Hn].
      intros Hr'. apply (Hd h Hin). right; exact Hr'.
Qed.

End PassFacts.

Module Diff.

Import Geo Facts AssocFacts PassFacts.

(** C5: within one pass (completed or ended by an exception) no hazard id
    gets more than one event, so no id is in two of Appeared, Updated and
    Cleared and none gets two events of one kind.  [tracked_entities] is a
    dict, so its keys are distinct. *)
Theorem pass_events_distinct (en : env) (data : option (list (string * pyval)))
  (te : tracked) (Hte : NoDup (map fst te)) :
  NoDup (map event_id (snd (fst (update_entities en data te)))).
Proof.
  unfold update_entities. cbv zeta.
  destruct (hazards_in_scope en data) as [his|x] eqn:Hh; [|simpl; constructor].
  pose proof (hazards_in_scope_nodup _ _ _ Hh) as Hhn.
  destruct (process_in_scope (map fst te) his te []) as [[te1 evs1] err1] eqn:Hp.
  destruct (process_in_scope_events (map fst te) his te [] te1 evs1 err1 Hhn
              (NoDup_nil _) (fun h H => match H with end) Hp) as [H1 H2].
  destruct err1 as [x|]; [exact H1|].
  destruct (process_cleared (filter (fun h => negb (mem h (map fst his))) (map fst te))
              te1 evs1) as [[te2 evs2] err2] eqn:Hc.
  simpl. eapply process_cleared_events; [| exact H1 | | exact Hc].
  - apply NoDup_filter. exact Hte.
  - intros h Hin Hf. apply filter_In in Hf. destruct Hf as [_ Hf].
    apply negb_true_iff in Hf. destruct (H2 h Hin) as [[]|Ha].
    apply mem_In in Ha. congruence.
Qed.

Lemma pass_events_distinct_witness :
  NoDup (map fst ([] : tracked)) /\
  NoDup (map event_id (snd (fst (update_entities (Inputs.env_home 5%R)
                                   (Inputs.data_of [Inputs.fA1]) [])))).
Proof.
  split; [constructor|].
  apply (pass_events_distinct (Inputs.env_home 5%R) (Inputs.data_of [Inputs.fA1]) []).
  constructor.
Defined.

End Diff.

Module ScopeSpec.

Import Geo Facts.

Lemma coord_ok_float (v : pyval) :
  coord_ok v = true -> is_none v = false -> exists x, to_float v = Ok x.
Proof.
  unfold coord_ok, to_float. intros H Hn. rewrite Hn in H. simpl in H.
  destruct (num_of v) as [q|]; [eauto|discriminate].
Qed.

Lemma haversine_distance_total (a b c d : pyval) :
  coord_ok a = true -> coord_ok b = true -> coord_ok c = true -> coord_ok d = true ->
  exists x, haversine_distance a b c d = Ok x.
Proof.
  intros Ha Hb Hc Hd. unfold haversine_distance.
  destruct (existsb is_none [a; b; c; d]) eqn:E; [eauto|].
  simpl in E. apply orb_false_iff in E as [Ea E].
  apply orb_false_iff in E as [Eb E]. apply orb_false_iff in E as [Ec E].
  apply orb_false_iff in E as [Ed _].
  destruct (coord_ok_float a Ha Ea) as [xa ->].
  destruct (coord_ok_float b Hb Eb) as [xb ->].
  destruct (coord_ok_float c Hc Ec) as [xc ->].
  destruct (coord_ok_float d Hd Ed) as [xd ->].
  simpl. eauto.
Qed.

Lemma near_any_device_spec (devs : list (string * (pyval * pyval))) (r : R)
  (lat lon : pyval) :
  forallb (fun p => let '(la, lo, _) := p in coord_ok la && coord_ok lo)
          (map (fun p => (fst (snd p), snd (snd p), r)) devs) = true ->
  coord_ok lat = true -> coord_ok lon = true ->
  near_any_device devs r lat lon =
  Ok (existsb (fun p => within p lat lon)
              (map (fun p => (fst (snd p), snd (snd p), r)) devs)).
Proof.
  intros H Hlat Hlon. induction devs as [|[id [la lo]] rest IH]; [reflexivity|].
  simpl in H |- *. apply andb_true_iff in H as [H Hrest].
  apply andb_true_iff in H as [Hla Hlo].
  destruct (haversine_distance_total la lo lat lon Hla Hlo Hlat Hlon) as [x Hx].
  unfold within. rewrite Hx. simpl.
  destruct (xle x r); [reflexivity|]. apply IH. exact Hrest.
Qed.

End ScopeSpec.

Module ScopeClaim.

Import Geo Facts ScopeSpec.

(** C7 (amended): for a feature dict with a non-empty id text, a truthy
    [properties] value and a Point geometry whose coordinates list holds
    at least two entries, the longitude and latitude being numbers (or
    [None]), and with every reference point's coordinates numbers (or
    [None]), the feature is in scope (under its id) if and only if its
    distance to some reference point is at most that point's radius; the
    comparison is [<=], so distance = radius qualifies and a larger
    distance does not. *)
Theorem scope_check_within (en : env) (fd : list (string * pyval)) (props : pyval)
  (g : list (string * pyval)) (lon lat : pyval) (rest : list pyval)
  (Hid : py_str (attr_or_none fd "id") <> "")
  (Hp : dict_get fd "properties" = Some props) (Hpt : py_truthy props = true)
  (Hg : dict_get fd "geometry" = Some (PDict g))
  (Ht : dict_get g "type" = Some (PStr "Point"))
  (Hc : dict_get g "coordinates" = Some (PList (lon :: lat :: rest)))
  (Hlat : coord_ok lat = true) (Hlon : coord_ok lon = true)
  (Hen : ref_coords_ok en = true) :
  scope_check en (PDict fd) =
  Ok (if existsb (fun p => within p lat lon) (ref_points en)
      then Some (py_str (attr_or_none fd "id")) else None).
Proof.
  unfold scope_check, bind, py_get. rewrite Hp, Hg.
  change (match dict_get fd "id" with Some x => x | None => PNone end)
    with (attr_or_none fd "id").
  destruct (String.eqb_spec (py_str (attr_or_none fd "id")) "") as [E|_];
    [contradiction|].
  rewrite Hpt.
  destruct g as [|kv g']; [discriminate Ht|].
  cbv beta iota. rewrite Ht, Hc. simpl.
  unfold ref_coords_ok, ref_points in Hen. unfold ref_points.
  destruct (home_coords en) as [hla hlo].
  destruct (negb (is_none hla) && negb (is_none hlo)) eqn:Hh.
  - simpl in Hen |- *. apply andb_true_iff in Hen as [Hhome Hdev].
    apply andb_true_iff in Hhome as [Hhla Hhlo].
    destruct (haversine_distance_total hla hlo lat lon Hhla Hhlo Hlat Hlon) as [x Hx].
    rewrite Hx. simpl.
    destruct (xle x (home_radius_km en)); [reflexivity|].
    rewrite (near_any_device_spec _ _ _ _ Hdev Hlat Hlon). simpl.
    destruct (existsb _ _); reflexivity.
  - simpl in Hen |- *.
    rewrite (near_any_device_spec _ _ _ _ Hen Hlat Hlon). simpl.
    destruct (existsb _ _); reflexivity.
Qed.

Lemma scope_check_within_witness :
  let fd := match Inputs.fA1 with PDict d => d | _ => [] end in
  scope_check (Inputs.env_home 5%R) (PDict fd) =
  Ok (if existsb (fun p => within p (PInt 0) (PInt 0)) (ref_points (Inputs.env_home 5%R))
      then Some (py_str (attr_or_none fd "id")) else None).
Proof.
  intros fd. eapply (scope_check_within (Inputs.env_home 5%R) fd).
  all: first [ reflexivity | intros H; vm_compute in H; discriminate H ].
Defined.

Lemma within_home_at_origin :
  existsb (fun p => within p (PInt 0) (PInt 0)) (ref_points (Inputs.env_home 5%R)) = true.
Proof.
  unfold ref_points. cbn -[haversine_distance].
  rewrite DistanceFacts.haversine_distance_same_point. cbn -[Rle_dec].
  destruct (Rle_dec 0 5); [reflexivity|lra].
Qed.

(** C7 counterexample: the feature "D4" at distance 0 from the home point
    (radius 5) has valid point coordinates but an empty properties dict,
    and the pass leaves it out of scope. *)
Lemma in_range_feature_out_of_scope :
  existsb (fun p => within p (PInt 0) (PInt 0)) (ref_points (Inputs.env_home 5%R)) = true /\
  scope_check (Inputs.env_home 5%R) Inputs.f_noprops = Ok None.
Proof.
  split; [exact within_home_at_origin|]. vm_compute. reflexivity.
Qed.

End ScopeClaim.

Module MergeFacts.

Import Api Geo Facts AssocFacts.

Local Open Scope list_scope.

(** [seen_feature_ids] holds the non-empty keys of the records so far. *)
Definition seen_inv (sn : list string) (earlier : list pyval) : Prop :=
  forall k, In k sn <-> k <> "" /\ In k (map feature_key earlier).

Lemma feature_key_dict (f : pyval) :
  is_dict f = true -> exists idv, py_get f "id" PNone = Ok idv /\ feature_key f = py_str idv.
Proof.
  destruct f; try discriminate. intros _. eexists. split; reflexivity.
Qed.

Lemma existsb_key_In (k : string) (E : list pyval) :
  existsb (fun g => String.eqb (feature_key g) k) E = true <-> In k (map feature_key E).
Proof.
  rewrite existsb_exists, in_map_iff. split.
  - intros [g [Hg He]]. apply String.eqb_eq in He. eauto.
  - intros [g [He Hg]]. exists g. split; [exact Hg|]. apply String.eqb_eq. exact He.
Qed.

Lemma existsb_seen (sn : list string) (E : list pyval) (fid : string) :
  seen_inv sn E -> fid <> "" ->
  existsb (String.eqb fid) sn = existsb (fun g => String.eqb (feature_key g) fid) E.
Proof.
  intros Hs Hf.
  change (existsb (String.eqb fid) sn) with (mem fid sn).
  destruct (mem fid sn) eqn:E1; destruct (existsb _ E) eqn:E2; try reflexivity.
  - apply mem_In, Hs in E1. destruct E1 as [_ E1].
    apply existsb_key_In in E1. congruence.
  - apply existsb_key_In in E2. assert (In fid sn) as H by (apply Hs; auto).
    apply mem_In in H. congruence.
Qed.

Lemma seen_inv_skip (sn : list string) (E : list pyval) (f : pyval) :
  seen_inv sn E -> (feature_key f = "" \/ In (feature_key f) (map feature_key E)) ->
  seen_inv sn (E ++ [f]).
Proof.
  intros Hs Hf. unfold seen_inv in *. intros k.
  rewrite Hs, map_app, in_app_iff. simpl.
  split; [tauto|]. intros [Hk [Hin|[He|[]]]]; [tauto|]. subst k.
  destruct Hf as [Hf|Hf]; [contradiction|tauto].
Qed.

Lemma seen_inv_add (sn : list string) (E : list pyval) (f : pyval) :
  seen_inv sn E -> feature_key f <> "" ->
  seen_inv (feature_key f :: sn) (E ++ [f]).
Proof.
  intros Hs Hf. unfold seen_inv in *. intros k.
  simpl. rewrite Hs, map_app, in_app_iff. simpl.
  split.
  - intros [<-|[Hk Hin]]; tauto.
  - intros [Hk [Hin|[He|[]]]]; tauto.
Qed.

Lemma merge_features_spec (fs : list pyval) :
  forall E sn acc,
    forallb is_dict fs = true -> seen_inv sn E ->
    exists sn' : list string,
      merge_features fs sn acc = (sn', (acc ++ merge_go E fs)%list, None) /\
                seen_inv sn' (E ++ fs).
Proof.
  induction fs as [|f rest IH]; intros E sn acc Hd Hs.
  - exists sn. rewrite !app_nil_r. split; [reflexivity|exact Hs].
  - simpl in Hd. apply andb_true_iff in Hd as [Hf Hr].
    destruct (feature_key_dict f Hf) as [idv [Hg Hk]].
    cbn [merge_features merge_go]. rewrite Hg. unfold keep_record. rewrite Hk.
    replace (E ++ f :: rest) with ((E ++ [f]) ++ rest) by (rewrite <- app_assoc; reflexivity).
    destruct (String.eqb_spec (py_str idv) "") as [He|Hne].
    + simpl.
      destruct (IH (E ++ [f]) sn (acc ++ [f]) Hr) as [sn' [Hm Hs']].
      { apply seen_inv_skip; [exact Hs|left; congruence]. }
      exists sn'. rewrite Hm, <- app_assoc. split; [reflexivity|exact Hs'].
    + rewrite (existsb_seen sn E _ Hs Hne). simpl.
      destruct (existsb (fun g => String.eqb (feature_key g) (py_str idv)) E) eqn:Ex.
      * apply existsb_key_In in Ex.
        destruct (String.eqb_spec (py_str idv) "") as [|_]; [contradiction|]. simpl.
        destruct (IH (E ++ [f]) sn acc Hr) as [sn' [Hm Hs']].
        { apply seen_inv_skip; [exact Hs|right; congruence]. }
        exists sn'. rewrite Hm. split; [reflexivity|exact Hs'].
      * simpl.
        destruct (IH (E ++ [f]) (py_str idv :: sn) (acc ++ [f]) Hr) as [sn' [Hm Hs']].
        { rewrite <- Hk. apply seen_inv_add; [exact Hs|congruence]. }
        exists sn'. rewrite Hm, <- app_assoc. split; [reflexivity|exact Hs'].
Qed.

Lemma merge_go_app (P E l : list pyval) :
  merge_go P (E ++ l) = merge_go P E ++ merge_go (P ++ E) l.
Proof.
  revert P. induction E as [|f E IH]; intros P; simpl.
  - rewrite app_nil_r. reflexivity.
  - rewrite IH, <- !app_assoc. reflexivity.
Qed.

End MergeFacts.

Module FetchFacts.

Import Api Geo Facts AssocFacts MergeFacts.

Local Open Scope list_scope.

Definition finv (st : fstate) (E : list pyval) : Prop :=
  seen_inv (seen st) E /\ all_features st = merge_spec E.

Section Net.

Variable net : network.
Hypothesis Hnet : dict_features net.

Lemma try_endpoints_spec (eps : list string) :
  forall st E, finv st E ->
    finv (fst (try_endpoints net eps st)) (E ++ fst (accepted_features net eps (nreq st))) /\
    nreq (fst (try_endpoints net eps st)) = snd (accepted_features net eps (nreq st)).
Proof.
  induction eps as [|url rest IH]; intros st E Hi.
  - simpl. rewrite app_nil_r. split; [exact Hi|reflexivity].
  - simpl. destruct (net (nreq st) url) as [r| | |] eqn:Hn;
      try (apply (IH {| seen := seen st; all_features := all_features st;
                        nreq := S (nreq st) |}); exact Hi).
    destruct (Z.eqb (status r) 401);
      [simpl; rewrite app_nil_r; split; [exact Hi|reflexivity]|].
    destruct (Z.eqb (status r) 403);
      [simpl; rewrite app_nil_r; split; [exact Hi|reflexivity]|].
    destruct (Z.leb 400 (status r));
      [apply (IH {| seen := seen st; all_features := all_features st;
                    nreq := S (nreq st) |}); exact Hi|].
    destruct (negb (text_ok r));
      [apply (IH {| seen := seen st; all_features := all_features st;
                    nreq := S (nreq st) |}); exact Hi|].
    destruct (json_body r) as [j|] eqn:Hj;
      [|apply (IH {| seen := seen st; all_features := all_features st;
                     nreq := S (nreq st) |}); exact Hi].
    destruct (dict_has j "features") eqn:Hd;
      [|apply (IH {| seen := seen st; all_features := all_features st;
                     nreq := S (nreq st) |}); exact Hi].
    destruct j as [| | | | | |d]; try discriminate Hd.
    unfold dict_has in Hd. simpl py_get.
    destruct (dict_get d "features") as [v|] eqn:Hdg; [|discriminate Hd].
    destruct v as [| | | | |fs|];
      try (apply (IH {| seen := seen st; all_features := all_features st;
                        nreq := S (nreq st) |}); exact Hi).
    pose proof (Hnet (nreq st) url r d fs Hn Hj Hdg) as Hall.
    destruct Hi as [Hs Ha].
    destruct (merge_features_spec fs E (seen st) (all_features st) Hall Hs)
      as [sn' [Hm Hs']].
    simpl. rewrite Hm. simpl. split; [|reflexivity]. split; [exact Hs'|].
    rewrite Ha. unfold merge_spec. rewrite merge_go_app. reflexivity.
Qed.

Lemma fetch_categories_spec (paths : list string) :
  forall st E, finv st E ->
    finv (fetch_categories net paths st)
         (E ++ List.concat (category_lists net paths (nreq st))).
Proof.
  induction paths as [|seg rest IH]; intros st E Hi.
  - simpl. rewrite app_nil_r. exact Hi.
  - cbn [fetch_categories category_lists]. pose proof (try_endpoints_spec (endpoints_to_try seg) st E Hi) as [Hf Hn].
    destruct (try_endpoints net (endpoints_to_try seg) st) as [st' b].
    destruct (accepted_features net (endpoints_to_try seg) (nreq st)) as [fs n'].
    simpl in Hf, Hn. cbn [List.concat]. rewrite app_assoc, <- Hn. apply IH. exact Hf.
Qed.

End Net.

Lemma merge_go_nodup (l : list pyval) :
  forall P, NoDup (nonempty_keys (merge_go P l)) /\
            (forall k, In k (nonempty_keys (merge_go P l)) -> ~ In k (map feature_key P)).
Proof.
  induction l as [|f r IH]; intros P; simpl.
  - split; [constructor|intros k []].
  - destruct (IH (P ++ [f])) as [Hnd Hout].
    assert (Hout' : forall k, In k (nonempty_keys (merge_go (P ++ [f]) r)) ->
                      ~ In k (map feature_key P) /\ k <> feature_key f).
    { intros k Hk. specialize (Hout k Hk). rewrite map_app, in_app_iff in Hout.
      simpl in Hout. split; [tauto|]. intros ->. tauto. }
    unfold keep_record.
    destruct (String.eqb_spec (feature_key f) "") as [He|Hne]; simpl.
    + unfold nonempty_keys in *. simpl. rewrite He. simpl.
      split; [exact Hnd|]. intros k Hk. apply (Hout' k Hk).
    + destruct (existsb (fun g => String.eqb (feature_key g) (feature_key f)) P) eqn:Ex;
        simpl.
      * split; [exact Hnd|]. intros k Hk. apply (Hout' k Hk).
      * unfold nonempty_keys in *. simpl.
        destruct (String.eqb_spec (feature_key f) "") as [|_]; [contradiction|]. simpl.
        split.
        -- constructor; [|exact Hnd]. intros Hin. apply (Hout' _ Hin). reflexivity.
        -- intros k [<-|Hk]; [|apply (Hout' k Hk)].
           intros Hin. apply existsb_key_In in Hin. congruence.
Qed.

Lemma merge_go_find (l : list pyval) :
  forall P k, k <> "" -> ~ In k (map feature_key P) ->
    find (fun g => String.eqb (feature_key g) k) (merge_go P l) =
    find (fun g => String.eqb (feature_key g) k) l.
Proof.
  induction l as [|f r IH]; intros P k Hk HP; simpl; [reflexivity|].
  destruct (String.eqb_spec (feature_key f) k) as [Hf|Hf].
  - assert (keep_record f P = true) as ->.
    { unfold keep_record. rewrite Hf.
      destruct (String.eqb_spec k "") as [|_]; [contradiction|]. simpl.
      destruct (existsb _ P) eqn:Ex; [|reflexivity].
      apply existsb_key_In in Ex. contradiction. }
    simpl. rewrite Hf, String.eqb_refl. reflexivity.
  - rewrite <- (IH (P ++ [f]) k Hk).
    + destruct (keep_record f P); simpl; [|reflexivity].
      destruct (String.eqb_spec (feature_key f) k); [contradiction|reflexivity].
    + rewrite map_app, in_app_iff. simpl. intros [H|[H|[]]]; [contradiction|congruence].
Qed.

End FetchFacts.

Module MergeClaim.

Import Api Geo Facts MergeFacts FetchFacts Inputs.

Local Open Scope list_scope.

(** C3: when every feature list the server sends holds dicts, the merged
    FeatureCollection is the concatenation of the categories' feature
    lists (in request order, then feature order) with every record
    dropped whose non-empty id text was carried by an earlier record: ids
    are distinct in the result, and for every id the record kept is the
    first one seen with it.  The dedup key is [str(feature.get("id"))]. *)
Theorem merged_first_seen (api_key : string) (net : network) (paths : list string)
  (Hk : api_key <> "") (Hnet : dict_features net) :
  async_get_hazards api_key net paths =
    Ok (feature_collection (merge_spec (List.concat (category_lists net paths 0)))) /\
  NoDup (nonempty_keys (merge_spec (List.concat (category_lists net paths 0)))) /\
  (forall k, k <> "" ->
     find (fun g => String.eqb (feature_key g) k)
          (merge_spec (List.concat (category_lists net paths 0))) =
     find (fun g => String.eqb (feature_key g) k) (List.concat (category_lists net paths 0))).
Proof.
  split; [|split].
  - unfold async_get_hazards.
    destruct (String.eqb_spec api_key "") as [|_]; [contradiction|].
    destruct paths as [|p ps]; [reflexivity|].
    assert (Hi : finv {| seen := []; all_features := []; nreq := 0 |} []).
    { split; [intros k; simpl; tauto|reflexivity]. }
    destruct (fetch_categories_spec net Hnet (p :: ps) _ [] Hi) as [_ Ha].
    rewrite app_nil_l in Ha. cbn [nreq] in Ha. rewrite Ha. reflexivity.
  - apply (merge_go_nodup _ []).
  - intros k Hk'. apply merge_go_find; [exact Hk'|intros []].
Qed.

Lemma net_overlap_dict_features : dict_features net_overlap.
Proof.
  intros n url r d fs H Hj Hf. unfold net_overlap in H.
  destruct (String.eqb url _) in H.
  - injection H as <-. simpl in Hj. injection Hj as <-. simpl in Hf.
    injection Hf as <-. reflexivity.
  - destruct (String.eqb url _) in H.
    + injection H as <-. simpl in Hj. injection Hj as <-. simpl in Hf.
      injection Hf as <-. reflexivity.
    + injection H as <-. discriminate Hj.
Qed.

Lemma merged_first_seen_witness :
  dict_features net_overlap /\
  async_get_hazards "key" net_overlap ["incident"; "roadwork"] =
    Ok (feature_collection [fA1; fB2]).
Proof.
  split; [exact net_overlap_dict_features|].
  destruct (merged_first_seen "key" net_overlap ["incident"; "roadwork"]
              ltac:(discriminate) net_overlap_dict_features) as [H _].
  rewrite H. vm_compute. reflexivity.
Defined.

End MergeClaim.

Module TrackedFacts.

Import Geo Facts AssocFacts PassFacts.

Local Open Scope list_scope.

(** [h] is one of [items] outside [cur] whose entity construction succeeds. *)
Definition new_ok (cur : list string) (items : list (string * pyval)) (h : string) : Prop :=
  ~ In h cur /\ exists d e, assoc_get items h = Some d /\ construct d = Ok e.

Lemma new_ok_in cur items h : new_ok cur items h -> In h (map fst items).
Proof. intros [_ [d [e [Hd _]]]]. eapply assoc_get_some_in. exact Hd. Qed.

Lemma new_ok_nil cur h : ~ new_ok cur [] h.
Proof. intros [_ [d [e [Hd _]]]]. discriminate Hd. Qed.

Lemma new_ok_cons cur hid d rest h :
  new_ok cur ((hid, d) :: rest) h <->
  (hid = h /\ ~ In hid cur /\ exists e, construct d = Ok e) \/ (hid <> h /\ new_ok cur rest h).
Proof.
  unfold new_ok. cbn [assoc_get]. destruct (String.eqb_spec h hid) as [->|Hne].
  - split.
    + intros [Hc [d' [e [Hd He]]]]. injection Hd as <-. left. eauto.
    + intros [[_ [Hc [e He]]]|[Hne _]]; [|congruence].
      split; [exact Hc|]. exists d, e. split; [reflexivity|exact He].
  - split.
    + intros H. right. split; [congruence|exact H].
    + intros [[Heq _]|[_ H]]; [congruence|exact H].
Qed.

Lemma appeared_ids_app evs evs' :
  appeared_ids (evs ++ evs') = appeared_ids evs ++ appeared_ids evs'.
Proof. unfold appeared_ids. apply flat_map_app. Qed.

Lemma cleared_ids_app evs evs' :
  cleared_ids (evs ++ evs') = cleared_ids evs ++ cleared_ids evs'.
Proof. unfold cleared_ids. apply flat_map_app. Qed.

Lemma process_in_scope_tracked (cur : list string) (items : list (string * pyval)) :
  forall te evs te1 evs1,
    NoDup (map fst items) -> NoDup (map fst te) ->
    process_in_scope cur items te evs = (te1, evs1, None) ->
    NoDup (map fst te1) /\
    (forall h, In h (map fst te1) <-> In h (map fst te) \/ new_ok cur items h) /\
    (forall h, In h (appeared_ids evs1) <-> In h (appeared_ids evs) \/ new_ok cur items h) /\
    cleared_ids evs1 = cleared_ids evs.
Proof.
  induction items as [|[hid d] rest IH]; intros te evs te1 evs1 Hi Ht Hp.
  - simpl in Hp. injection Hp as <- <-.
    split; [exact Ht|]. split; [|split; [|reflexivity]];
      intros h; pose proof (new_ok_nil cur h); tauto.
  - simpl in Hi. inversion Hi as [|? ? Hn Hr]; subst.
    assert (Hrest : forall h, new_ok cur rest h -> hid <> h).
    { intros h H <-. apply Hn. eapply new_ok_in. exact H. }
    simpl in Hp. destruct (mem hid cur) eqn:Hm; simpl in Hp.
    + assert (Hno : forall h, new_ok cur ((hid, d) :: rest) h <-> new_ok cur rest h).
      { intros h. rewrite new_ok_cons. apply mem_In in Hm.
        split; [intros [[_ [Hc _]]|[_ H]]; [contradiction|exact H]|].
        intros H. right. split; [exact (Hrest h H)|exact H]. }
      destruct (assoc_get te hid) as [e|] eqn:Hg; [|discriminate Hp].
      destruct (update_hazard_data e d) as [e' [x|]]; [discriminate Hp|].
      assert (Hkeys : forall h, In h (map fst (assoc_insert hid e' te)) <-> In h (map fst te)).
      { intros h. rewrite assoc_insert_keys. apply assoc_get_some_in in Hg.
        split; [intros [<-|H]; assumption|tauto]. }
      assert (Hnd : NoDup (map fst (assoc_insert hid e' te))) by (apply assoc_insert_nodup; exact Ht).
      destruct (changed_significant_attrs (e_attrs e) (e_attrs e')) as [|c cs].
      * destruct (IH _ _ _ _ Hr Hnd Hp) as [N1 [K1 [A1 C1]]].
        split; [exact N1|]. split; [|split; [|exact C1]]; intros h.
        -- rewrite K1, Hkeys, Hno. tauto.
        -- rewrite A1, Hno. tauto.
      * destruct (IH _ _ _ _ Hr Hnd Hp) as [N1 [K1 [A1 C1]]].
        split; [exact N1|]. split; [|split].
        -- intros h. rewrite K1, Hkeys, Hno. tauto.
        -- intros h. rewrite A1, Hno, appeared_ids_app. simpl. rewrite app_nil_r. tauto.
        -- rewrite C1, cleared_ids_app. simpl. apply app_nil_r.
    + assert (Hcur : ~ In hid cur) by (intros H; apply mem_In in H; congruence).
      destruct (construct d) as [e|x] eqn:Hc.
      * assert (Hno : forall h, new_ok cur ((hid, d) :: rest) h <-> hid = h \/ new_ok cur rest h).
        { intros h. rewrite new_ok_cons. split.
          - intros [[<- _]|[_ H]]; [left; reflexivity|right; exact H].
          - intros [<-|H]; [left; eauto|right; split; [exact (Hrest h H)|exact H]]. }
        destruct (IH _ _ _ _ Hr (assoc_insert_nodup hid e te Ht) Hp) as [N1 [K1 [A1 C1]]].
        split; [exact N1|]. split; [|split].
        -- intros h. rewrite K1, assoc_insert_keys, Hno. tauto.
        -- intros h. rewrite A1, Hno, appeared_ids_app, in_app_iff. simpl. tauto.
        -- rewrite C1, cleared_ids_app. simpl. apply app_nil_r.
      * assert (Hno : forall h, new_ok cur ((hid, d) :: rest) h <-> new_ok cur rest h).
        { intros h. rewrite new_ok_cons.
          split; [intros [[_ [_ [e He]]]|[_ H]]; [congruence|exact H]|].
          intros H. right. split; [exact (Hrest h H)|exact H]. }
        destruct (IH _ _ _ _ Hr Ht Hp) as [N1 [K1 [A1 C1]]].
        split; [exact N1|]. split; [|split; [|exact C1]]; intros h.
        -- rewrite K1, Hno. tauto.
        -- rewrite A1, Hno. tauto.
Qed.

Lemma process_cleared_tracked (ids : list string) :
  forall te evs te2 evs2,
    NoDup (map fst te) ->
    process_cleared ids te evs = (te2, evs2, None) ->
    NoDup (map fst te2) /\
    (forall h, In h (map fst te2) <-> In h (map fst te) /\ ~ In h ids) /\
    appeared_ids evs2 = appeared_ids evs /\
    cleared_ids evs2 = cleared_ids evs ++ ids.
Proof.
  induction ids as [|hid rest IH]; intros te evs te2 evs2 Ht Hp; simpl in Hp.
  - injection Hp as <- <-. split; [exact Ht|]. split; [|split; [reflexivity|]].
    + intros h. simpl. tauto.
    + rewrite app_nil_r. reflexivity.
  - destruct (assoc_get te hid) as [e|] eqn:Hg; [|discriminate Hp].
    destruct (IH _ _ _ _ (assoc_remove_nodup hid te Ht) Hp) as [N1 [K1 [A1 C1]]].
    split; [exact N1|]. split; [|split].
    + intros h. rewrite K1, (assoc_remove_keys hid te h Ht). simpl. split.
      * intros [[Hne Hin] Hr]. split; [exact Hin|].
        intros [<-|H]; [apply Hne; reflexivity|contradiction].
      * intros [Hin Hno]. split; [split; [intros ->; apply Hno; left; reflexivity|exact Hin]|].
        intros H. apply Hno. right. exact H.
    + rewrite A1, appeared_ids_app. simpl. apply app_nil_r.
    + rewrite C1, cleared_ids_app, <- app_assoc. reflexivity.
Qed.

Lemma In_filter_not_mem (h : string) (l c : list string) :
  In h (filter (fun x => negb (mem x l)) c) <-> In h c /\ ~ In h l.
Proof.
  rewrite filter_In. split.
  - intros [Hc Hm]. split; [exact Hc|]. intros H. apply mem_In in H.
    rewrite H in Hm. discriminate Hm.
  - intros [Hc Hn]. split; [exact Hc|].
    destruct (mem h l) eqn:Hm; [|reflexivity]. apply mem_In in Hm. contradiction.
Qed.

End TrackedFacts.

Module TrackedClaim.

Import Geo Facts AssocFacts PassFacts TrackedFacts Inputs ScopeFacts Runs.

Local Open Scope list_scope.

(** C4 (amended): after a pass that completes without an exception, the
    tracked set is the set of in-scope ids minus the newly in-scope ids
    whose entity construction raised; it is also the previous tracked set
    minus the ids of this pass's Cleared events plus the ids of its
    Appeared events, where Appeared ids were untracked and Cleared ids
    were tracked before the pass. *)
Theorem completed_pass_tracked (en : env) (data : option (list (string * pyval)))
  (te te' : tracked) (evs : list event)
  (Hte : NoDup (map fst te)) (Hp : update_entities en data te = (te', evs, None)) :
  exists his,
    hazards_in_scope en data = Ok his /\ NoDup (map fst te') /\
    (forall h, In h (map fst te') <->
       In h (map fst his) /\
       (In h (map fst te) \/ exists d e, assoc_get his h = Some d /\ construct d = Ok e)) /\
    (forall h, In h (map fst te') <->
       (In h (map fst te) /\ ~ In h (cleared_ids evs)) \/ In h (appeared_ids evs)) /\
    (forall h, In h (appeared_ids evs) -> ~ In h (map fst te)) /\
    (forall h, In h (cleared_ids evs) -> In h (map fst te)).
Proof.
  unfold update_entities in Hp. cbv zeta in Hp.
  destruct (hazards_in_scope en data) as [his|x] eqn:Hh; [|discriminate Hp].
  exists his. split; [reflexivity|].
  pose proof (hazards_in_scope_nodup _ _ _ Hh) as Hhn.
  destruct (process_in_scope (map fst te) his te []) as [[te1 evs1] [x|]] eqn:Hp1;
    [discriminate Hp|].
  destruct (process_in_scope_tracked _ _ _ _ _ _ Hhn Hte Hp1) as [N1 [K1 [A1 C1]]].
  destruct (process_cleared_tracked _ _ _ _ _ N1 Hp) as [N2 [K2 [A2 C2]]].
  simpl in A1, C1.
  assert (Hnew : forall h, new_ok (map fst te) his h -> ~ In h (map fst te))
    by (intros h [H _]; exact H).
  split; [exact N2|]. split; [|split; [|split]].
  - intros h. rewrite K2, K1, In_filter_not_mem.
    destruct (in_dec String.string_dec h (map fst his)) as [Hin|Hout];
      destruct (in_dec String.string_dec h (map fst te)) as [Hte'|Hte'].
    + split; [tauto|]. intros _. split; [left; exact Hte'|tauto].
    + split.
      * intros [[H|H] _]; [contradiction|]. split; [exact Hin|right].
        destruct H as [_ H]. exact H.
      * intros [_ [H|H]]; [contradiction|]. split; [right; split; [exact Hte'|exact H]|tauto].
    + split; [tauto|]. intros [H _]; contradiction.
    + split.
      * intros [[H|H] _]; [contradiction|]. apply new_ok_in in H. contradiction.
      * intros [H _]; contradiction.
  - intros h. rewrite K2, K1, C2, C1, A2, A1. simpl. rewrite !In_filter_not_mem.
    pose proof (Hnew h). tauto.
  - intros h. rewrite A2, A1. simpl. intros [[]|H]. exact (Hnew h H).
  - intros h. rewrite C2, C1. simpl. rewrite In_filter_not_mem. tauto.
Qed.

Lemma completed_pass_tracked_witness :
  exists his,
    hazards_in_scope (env_home 5%R) (data_of []) = Ok his /\
    NoDup (map fst ([] : tracked)) /\
    (forall h, In h (map fst ([] : tracked)) <->
       In h (map fst his) /\
       (In h (map fst [("A1", entity_A1)]) \/
        exists d e, assoc_get his h = Some d /\ construct d = Ok e)) /\
    (forall h, In h (map fst ([] : tracked)) <->
       (In h (map fst [("A1", entity_A1)]) /\
        ~ In h (cleared_ids [Cleared "A1" (e_name entity_A1) (e_attrs entity_A1)])) \/
       In h (appeared_ids [Cleared "A1" (e_name entity_A1) (e_attrs entity_A1)])) /\
    (forall h, In h (appeared_ids [Cleared "A1" (e_name entity_A1) (e_attrs entity_A1)]) ->
       ~ In h (map fst [("A1", entity_A1)])) /\
    (forall h, In h (cleared_ids [Cleared "A1" (e_name entity_A1) (e_attrs entity_A1)]) ->
       In h (map fst [("A1", entity_A1)])).
Proof.
  apply (completed_pass_tracked (env_home 5%R) (data_of []) [("A1", entity_A1)] []
           [Cleared "A1" (e_name entity_A1) (e_attrs entity_A1)]).
  - constructor; [intros []|constructor].
  - vm_compute. reflexivity.
Defined.

Lemma hazards_in_scope_null_roads :
  hazards_in_scope (env_home 5%R) (data_of [f_null_roads]) = Ok [("C3", f_null_roads)].
Proof.
  unfold hazards_in_scope. cbn -[scope_check].
  unfold scope_check. cbn -[haversine_distance].
  rewrite DistanceFacts.haversine_distance_same_point. cbn -[Rle_dec].
  destruct (Rle_dec 0 5); [reflexivity|lra].
Qed.

Lemma clear_A1 :
  update_entities (env_home 5%R) (data_of []) [("A1", entity_A1)] =
  ([], [Cleared "A1" (e_name entity_A1) (e_attrs entity_A1)], None).
Proof. vm_compute. reflexivity. Qed.

(** C4 counterexample.  First: "C3" is in scope (distance 0, radius 5),
    but its [roads] property is null, so building its entity raises
    TypeError; the constructor's error is caught and the pass completes
    with an empty tracked set.  Second: over the snapshots S0 = [A1],
    S1 = [], S2 = [A1], "A1" is Appeared twice and Cleared once, so the
    ids ever Appeared minus those ever Cleared are empty, while "A1" is
    tracked after S2. *)
Lemma tracked_set_counterexample :
  (hazards_in_scope (env_home 5%R) (data_of [f_null_roads]) = Ok [("C3", f_null_roads)] /\
   update_entities (env_home 5%R) (data_of [f_null_roads]) [] = ([], [], None)) /\
  (let '(te1, evs1, _) := update_entities (env_home 5%R) (data_of [fA1]) [] in
   let '(te2, evs2, _) := update_entities (env_home 5%R) (data_of []) te1 in
   let '(te3, evs3, _) := update_entities (env_home 5%R) (data_of [fA1]) te2 in
   map fst te3 = ["A1"] /\
   appeared_ids (evs1 ++ evs2 ++ evs3) = ["A1"; "A1"] /\
   cleared_ids (evs1 ++ evs2 ++ evs3) = ["A1"]).
Proof.
  split.
  - split; [exact hazards_in_scope_null_roads|].
    unfold update_entities. rewrite hazards_in_scope_null_roads.
    vm_compute. reflexivity.
  - rewrite (pass_A1 5%R) by lra. cbv beta iota zeta.
    rewrite clear_A1. cbv beta iota zeta.
    rewrite (pass_A1 5%R) by lra. vm_compute. repeat split; reflexivity.
Qed.

End TrackedClaim.

Module EqFacts.

Import Geo.

Local Open Scope list_scope.

(** Induction over [pyval] through its lists and dicts. *)
Section PyvalInd.

Variable P : pyval -> Prop.
Hypothesis HNone : P PNone.
Hypothesis HBool : forall b, P (PBool b).
Hypothesis HInt : forall z, P (PInt z).
Hypothesis HFloat : forall q r, P (PFloat q r).
Hypothesis HStr : forall s, P (PStr s).
Hypothesis HList : forall l, Forall P l -> P (PList l).
Hypothesis HDict : forall d, Forall (fun kv => P (snd kv)) d -> P (PDict d).

Fixpoint pyval_ind' (v : pyval) : P v :=
  match v with
  | PNone => HNone
  | PBool b => HBool b
  | PInt z => HInt z
  | PFloat q r => HFloat q r
  | PStr s => HStr s
  | PList l =>
      HList l ((fix go (l : list pyval) : Forall P l :=
                  match l with
                  | [] => Forall_nil _
                  | x :: r => Forall_cons _ (pyval_ind' x) (go r)
                  end) l)
  | PDict d =>
      HDict d ((fix go (d : list (string * pyval)) : Forall (fun kv => P (snd kv)) d :=
                  match d with
                  | [] => Forall_nil _
                  | kv :: r => Forall_cons _ (pyval_ind' (snd kv)) (go r)
                  end) d)
  end.

End PyvalInd.

Lemma Qeq_bool_self (q : Q) : Qeq_bool q q = true.
Proof. apply Qeq_bool_iff. apply Qeq_refl. Qed.

Lemma dict_get_first (d : list (string * pyval)) (k : string) :
  In k (map fst d) -> exists x, dict_get d k = Some x.
Proof.
  induction d as [|[k' x] r IH]; simpl; intros H; [contradiction|].
  destruct (String.eqb_spec k k') as [->|Hne]; [eauto|].
  apply IH. destruct H; [congruence|assumption].
Qed.

Lemma py_eq_refl (v : pyval) : py_eq v v = true.
Proof.
  induction v as [| b | z | q r | s | l Hl | d Hd] using pyval_ind'; simpl.
  - reflexivity.
  - apply Qeq_bool_self.
  - apply Qeq_bool_self.
  - apply Qeq_bool_self.
  - apply String.eqb_refl.
  - induction Hl as [|x r Hx Hr IH]; [reflexivity|].
    simpl. rewrite Hx. exact IH.
  - apply andb_true_iff. split.
    + match goal with |- ?g d [] = true =>
        assert (Hgo : forall s earlier, Forall (fun kv => py_eq (snd kv) (snd kv) = true) s ->
                  (forall k, ~ In k earlier -> dict_get d k = dict_get s k) ->
                  g s earlier = true) end.
      { intros s. induction s as [|[k x] r IH]; intros earlier Hs Hinv; [reflexivity|].
        inversion Hs as [|? ? Hx Hr]; subst. cbn beta iota.
        apply andb_true_iff. split.
        - destruct (existsb (String.eqb k) earlier) eqn:Ex; [reflexivity|].
          rewrite Hinv; [simpl; rewrite String.eqb_refl; exact Hx|].
          intros Hin. assert (existsb (String.eqb k) earlier = true) as Ht
            by (apply existsb_exists; exists k; split; [exact Hin|apply String.eqb_refl]).
          congruence.
        - apply IH; [exact Hr|]. intros k' Hk'. rewrite Hinv; [|intros H; apply Hk'; right; exact H].
          simpl. destruct (String.eqb_spec k' k) as [->|]; [exfalso; apply Hk'; left; reflexivity|].
          reflexivity. }
      apply Hgo; [exact Hd|]. intros k _. reflexivity.
    + apply forallb_forall. intros k Hk. destruct (dict_get_first d k Hk) as [x ->].
      reflexivity.
Qed.

Lemma aval_eq_refl (a : aval) : aval_eq a a = true.
Proof. destruct a; simpl; [apply py_eq_refl|apply Z.eqb_refl]. Qed.

Lemma changed_significant_attrs_refl (a : attrs) : changed_significant_attrs a a = [].
Proof.
  unfold changed_significant_attrs.
  induction SIGNIFICANT_ATTRIBUTE_KEYS as [|k ks IH]; [reflexivity|].
  simpl. rewrite aval_eq_refl. exact IH.
Qed.

End EqFacts.

Module UpdateFacts.

Import Geo.

(** Whether [update_hazard_data] raises, and the attributes it sets,
    depend on the hazard data only, not on the entity's previous state. *)
Lemma update_hazard_data_det (e1 e2 : entity) (d : pyval) :
  snd (update_hazard_data e1 d) = snd (update_hazard_data e2 d) /\
  (snd (update_hazard_data e1 d) = None ->
   e_attrs (fst (update_hazard_data e1 d)) = e_attrs (fst (update_hazard_data e2 d))).
Proof.
  unfold update_hazard_data.
  repeat match goal with
  | |- context [match ?x with _ => _ end] =>
      match x with
      | context [e1] => fail 1
      | context [e2] => fail 1
      | _ => destruct x
      end
  end; simpl; split; try reflexivity; intros; try discriminate; reflexivity.
Qed.

Lemma construct_then_update (d : pyval) (e : entity) :
  construct d = Ok e ->
  exists e', update_hazard_data e d = (e', None) /\ e_attrs e' = e_attrs e.
Proof.
  unfold construct. intros H.
  destruct (update_hazard_data blank_entity d) as [e0 [x|]] eqn:H0; [discriminate H|].
  unfold bind in H. destruct (slugify _) as [slug|x]; [|discriminate H].
  injection H as <-.
  match goal with |- exists e', update_hazard_data ?E d = _ /\ _ =>
    destruct (update_hazard_data_det E blank_entity d) as [Hs Ha];
    rewrite H0 in Hs, Ha; cbn [fst snd] in Hs, Ha;
    destruct (update_hazard_data E d) as [e' r] eqn:He end.
  cbn [fst snd] in Hs, Ha. subst r.
  exists e'. split; [reflexivity|]. exact (Ha eq_refl).
Qed.

Lemma update_again (e e' : entity) (d : pyval) :
  update_hazard_data e d = (e', None) ->
  exists e'', update_hazard_data e' d = (e'', None) /\ e_attrs e'' = e_attrs e'.
Proof.
  intros H. destruct (update_hazard_data_det e' e d) as [Hs Ha].
  rewrite H in Hs, Ha. cbn [fst snd] in Hs, Ha.
  destruct (update_hazard_data e' d) as [e'' r]. cbn [fst snd] in Hs, Ha. subst r.
  exists e''. split; [reflexivity|]. exact (Ha eq_refl).
Qed.

Lemma update_fails_again (e e' : entity) (d : pyval) (x : exn) :
  update_hazard_data e d = (e', Some x) ->
  exists x', snd (update_hazard_data e' d) = Some x'.
Proof.
  intros H. destruct (update_hazard_data_det e' e d) as [Hs _].
  rewrite H in Hs. cbn [snd] in Hs. eauto.
Qed.

End UpdateFacts.

Module QuietFacts.

Import Geo Facts AssocFacts PassFacts TrackedFacts EqFacts UpdateFacts.

Local Open Scope list_scope.

Lemma keys_lookup {A} (l : list (string * A)) (h : string) :
  In h (map fst l) <-> assoc_get l h <> None.
Proof.
  split.
  - intros H. destruct (assoc_get_in l h H) as [v ->]. discriminate.
  - intros H. destruct (assoc_get l h) as [v|] eqn:E; [|contradiction].
    eapply assoc_get_some_in. exact E.
Qed.

Lemma process_in_scope_other (cur : list string) (items : list (string * pyval)) :
  forall te evs te' evs' err,
    process_in_scope cur items te evs = (te', evs', err) ->
    forall h, ~ In h (map fst items) -> assoc_get te' h = assoc_get te h.
Proof.
  induction items as [|[hid d] rest IH]; simpl; intros te evs te' evs' err Hp h Hh.
  - injection Hp as <- _ _. reflexivity.
  - assert (Hne : String.eqb h hid = false)
      by (apply String.eqb_neq; intros ->; apply Hh; left; reflexivity).
    assert (Hr : ~ In h (map fst rest)) by tauto.
    destruct (negb (mem hid cur)).
    + destruct (construct d) as [e|x].
      * rewrite (IH _ _ _ _ _ Hp h Hr), assoc_get_insert, Hne. reflexivity.
      * exact (IH _ _ _ _ _ Hp h Hr).
    + destruct (assoc_get te hid) as [e|]; [|injection Hp as <- _ _; reflexivity].
      destruct (update_hazard_data e d) as [e1 [x|]].
      * injection Hp as <- _ _. rewrite assoc_get_insert, Hne. reflexivity.
      * destruct (changed_significant_attrs _ _);
          rewrite (IH _ _ _ _ _ Hp h Hr), assoc_get_insert, Hne; reflexivity.
Qed.

Lemma process_cleared_other (ids : list string) :
  forall te evs te' evs' err,
    NoDup (map fst te) ->
    process_cleared ids te evs = (te', evs', err) ->
    forall h, ~ In h ids -> assoc_get te' h = assoc_get te h.
Proof.
  induction ids as [|hid rest IH]; simpl; intros te evs te' evs' err Ht Hp h Hh.
  - injection Hp as <- _ _. reflexivity.
  - destruct (assoc_get te hid) as [e|]; [|injection Hp as <- _ _; reflexivity].
    rewrite (IH _ _ _ _ _ (assoc_remove_nodup hid te Ht) Hp h ltac:(tauto)).
    rewrite (assoc_get_remove hid te h Ht).
    destruct (String.eqb_spec h hid) as [->|]; [exfalso; apply Hh; left; reflexivity|].
    reflexivity.
Qed.

Lemma quiet_upto_ext (T T' : tracked) (items : list (string * pyval)) :
  (forall h, In h (map fst items) -> assoc_get T h = assoc_get T' h) ->
  quiet_upto T items -> quiet_upto T' items.
Proof.
  induction items as [|[hid d] rest IH]; simpl; intros Heq Hq; [exact I|].
  rewrite <- (Heq hid (or_introl eq_refl)).
  destruct (assoc_get T hid) as [e|].
  - destruct (update_hazard_data e d) as [e' [x|]]; [exact I|].
    destruct Hq as [Hc Hq]. split; [exact Hc|]. apply IH; [|exact Hq].
    intros h Hh. apply Heq. right. exact Hh.
  - destruct Hq as [Hc Hq]. split; [exact Hc|]. apply IH; [|exact Hq].
    intros h Hh. apply Heq. right. exact Hh.
Qed.

End QuietFacts.

Module TwoPass.

Import Geo Facts AssocFacts PassFacts TrackedFacts EqFacts UpdateFacts QuietFacts.

Local Open Scope list_scope.

Lemma lookup_insert_other (te : tracked) (hid h : string) (e : entity) :
  h <> hid -> assoc_get (assoc_insert hid e te) h = assoc_get te h.
Proof.
  intros Hne. rewrite assoc_get_insert.
  destruct (String.eqb_spec h hid); [contradiction|reflexivity].
Qed.

Lemma lookup_insert_same (te : tracked) (hid : string) (e : entity) :
  assoc_get (assoc_insert hid e te) hid = Some e.
Proof. rewrite assoc_get_insert, String.eqb_refl. reflexivity. Qed.

(** The first pass leaves a tracked state on which a second run over the
    same items is quiet up to the first failing update, and fails
    somewhere when the first pass did. *)
Lemma pass1_quiet (cur : list string) (items : list (string * pyval)) :
  forall te evs te1 evs1 err,
    NoDup (map fst items) ->
    (forall h, In h (map fst items) -> (In h cur <-> assoc_get te h <> None)) ->
    process_in_scope cur items te evs = (te1, evs1, err) ->
    quiet_upto te1 items /\ (err <> None -> fails_somewhere te1 items).
Proof.
  induction items as [|[hid d] rest IH]; intros te evs te1 evs1 err Hi Hinv Hp.
  - simpl in Hp. injection Hp as <- <- <-. split; [exact I|]. intros H; contradiction.
  - simpl in Hi. inversion Hi as [|? ? Hn Hr]; subst.
    assert (Hinv_r : forall e', forall h, In h (map fst rest) ->
              (In h cur <-> assoc_get (assoc_insert hid e' te) h <> None)).
    { intros e' h Hh. rewrite lookup_insert_other; [apply Hinv; right; exact Hh|].
      intros ->. contradiction. }
    assert (Hinv_s : forall h, In h (map fst rest) ->
              (In h cur <-> assoc_get te h <> None))
      by (intros h Hh; apply Hinv; right; exact Hh).
    pose proof (Hinv hid (or_introl eq_refl)) as Hhid.
    pose proof (process_in_scope_other cur rest) as Hother.
    cbn [process_in_scope] in Hp. cbn [quiet_upto fails_somewhere].
    destruct (mem hid cur) eqn:Hm; cbn [negb] in Hp.
    + apply mem_In in Hm. apply Hhid in Hm.
      destruct (assoc_get te hid) as [e|] eqn:Hg; [|contradiction].
      destruct (update_hazard_data e d) as [e' [x|]] eqn:Hu.
      * injection Hp as <- <- <-. rewrite lookup_insert_same.
        destruct (update_fails_again e e' d x Hu) as [x' Hx'].
        destruct (update_hazard_data e' d) as [e'' y]. cbn [snd] in Hx'. subst y.
        split; [exact I|]. intros _. exact I.
      * assert (Hlk : assoc_get te1 hid = Some e').
        { destruct (changed_significant_attrs (e_attrs e) (e_attrs e'));
            rewrite (Hother _ _ _ _ _ Hp hid Hn); apply lookup_insert_same. }
        rewrite Hlk.
        destruct (update_again e e' d Hu) as [e'' [Hu' Ha]]. rewrite Hu', Ha.
        rewrite changed_significant_attrs_refl.
        destruct (changed_significant_attrs (e_attrs e) (e_attrs e'));
          destruct (IH _ _ _ _ _ Hr (Hinv_r e') Hp) as [Q F];
          (split; [split; [reflexivity|exact Q]|exact F]).
    + assert (Hnone : assoc_get te hid = None).
      { destruct (assoc_get te hid) as [e|] eqn:Hg; [|reflexivity].
        exfalso. assert (In hid cur) as Hc by (apply Hhid; try rewrite Hg; discriminate).
        apply mem_In in Hc. congruence. }
      destruct (construct d) as [e|x] eqn:Hc.
      * rewrite (Hother _ _ _ _ _ Hp hid Hn), lookup_insert_same.
        destruct (construct_then_update d e Hc) as [e' [Hu Ha]]. rewrite Hu, Ha.
        rewrite changed_significant_attrs_refl.
        destruct (IH _ _ _ _ _ Hr (Hinv_r e) Hp) as [Q F].
        split; [split; [reflexivity|exact Q]|exact F].
      * rewrite (Hother _ _ _ _ _ Hp hid Hn), Hnone.
        destruct (IH _ _ _ _ _ Hr Hinv_s Hp) as [Q F].
        split; [split; [eauto|exact Q]|exact F].
Qed.

(** A run over items on which the tracked state is quiet fires nothing,
    and raises when the state fails somewhere. *)
Lemma pass2_quiet (T : tracked) (cur : list string) (items : list (string * pyval)) :
  forall te evs,
    NoDup (map fst items) ->
    (forall h, In h (map fst items) -> assoc_get te h = assoc_get T h) ->
    (forall h, In h (map fst items) -> (In h cur <-> assoc_get T h <> None)) ->
    quiet_upto T items ->
    snd (fst (process_in_scope cur items te evs)) = evs /\
    (fails_somewhere T items -> snd (process_in_scope cur items te evs) <> None).
Proof.
  induction items as [|[hid d] rest IH]; intros te evs Hi Hte Hinv Hq.
  - split; [reflexivity|]. intros [].
  - simpl in Hi. inversion Hi as [|? ? Hn Hr]; subst.
    assert (Hinv_s : forall h, In h (map fst rest) -> (In h cur <-> assoc_get T h <> None))
      by (intros h Hh; apply Hinv; right; exact Hh).
    pose proof (Hinv hid (or_introl eq_refl)) as Hhid.
    pose proof (Hte hid (or_introl eq_refl)) as Hthid.
    cbn [quiet_upto fails_somewhere] in Hq |- *. cbn [process_in_scope].
    destruct (assoc_get T hid) as [e|] eqn:HT.
    + assert (Hm : mem hid cur = true) by (apply mem_In, Hhid; discriminate).
      rewrite Hm, Hthid. cbn [negb].
      destruct (update_hazard_data e d) as [e' [x|]].
      * split; [reflexivity|]. intros _. discriminate.
      * destruct Hq as [Hc Hq]. rewrite Hc.
        apply IH; [exact Hr| |exact Hinv_s|exact Hq].
        intros h Hh. rewrite lookup_insert_other; [apply Hte; right; exact Hh|].
        intros ->. contradiction.
    + assert (Hm : mem hid cur = false).
      { destruct (mem hid cur) eqn:Hm; [|reflexivity].
        apply mem_In, Hhid in Hm. contradiction. }
      rewrite Hm. cbn [negb].
      destruct Hq as [[x Hc] Hq]. rewrite Hc.
      apply IH; [exact Hr| |exact Hinv_s|exact Hq].
      intros h Hh. apply Hte. right. exact Hh.
Qed.

Lemma filter_all_false {T} (f : T -> bool) (l : list T) :
  (forall x, In x l -> f x = false) -> filter f l = [].
Proof.
  induction l as [|x r IH]; simpl; intros H; [reflexivity|].
  rewrite (H x (or_introl eq_refl)). apply IH. intros y Hy. apply H. right. exact Hy.
Qed.

Lemma process_cleared_ok (ids : list string) :
  forall te evs,
    NoDup ids -> NoDup (map fst te) ->
    (forall h, In h ids -> In h (map fst te)) ->
    snd (process_cleared ids te evs) = None.
Proof.
  induction ids as [|hid rest IH]; intros te evs Hi Ht Hs; [reflexivity|].
  inversion Hi as [|? ? Hn Hr]; subst. cbn [process_cleared].
  destruct (assoc_get_in te hid (Hs hid (or_introl eq_refl))) as [e He]. rewrite He.
  apply IH; [exact Hr|apply assoc_remove_nodup; exact Ht|].
  intros h Hh. apply assoc_remove_keys; [exact Ht|]. split.
  - intros ->. contradiction.
  - apply Hs. right. exact Hh.
Qed.

End TwoPass.

Module Idempotence.

Import Geo Facts AssocFacts PassFacts TrackedFacts QuietFacts TwoPass Inputs.

Local Open Scope list_scope.

(** C6: running [update_entities] a second time on the same coordinator
    data (hence the same in-scope snapshot), starting from the tracked
    state the first run left, fires no event: no Appeared, no Updated and
    no Cleared.  This holds whether or not the first run completed.  The
    only assumption is that the tracked ids are distinct, as the keys of
    the Python dict [tracked_entities] are.  Numbers are modelled as
    rationals, so a NaN attribute, which never compares equal to itself,
    is outside this model. *)
Theorem second_pass_quiet (en : env) (data : option (list (string * pyval)))
  (te : tracked) (Hte : NoDup (map fst te)) :
  snd (fst (update_entities en data (fst (fst (update_entities en data te))))) = [].
Proof.
  destruct (update_entities en data te) as [[te1 evs1] err1] eqn:HP1. cbn [fst snd].
  unfold update_entities in HP1 |- *. cbv zeta in HP1 |- *.
  destruct (hazards_in_scope en data) as [his|x] eqn:Hh; [|reflexivity].
  pose proof (hazards_in_scope_nodup en data his Hh) as Hi.
  destruct (process_in_scope (map fst te) his te []) as [[te_a evs_a] err_a] eqn:Hpa.
  destruct (pass1_quiet (map fst te) his te [] te_a evs_a err_a Hi
              (fun h _ => keys_lookup te h) Hpa) as [Qa Fa].
  destruct err_a as [xa|].
  - injection HP1 as <- <- <-.
    destruct (pass2_quiet te_a (map fst te_a) his te_a [] Hi (fun h _ => eq_refl)
                (fun h _ => keys_lookup te_a h) Qa) as [E2 F2].
    specialize (F2 (Fa ltac:(discriminate))).
    destruct (process_in_scope (map fst te_a) his te_a []) as [[t2 e2] r2].
    cbn [fst snd] in E2, F2.
    destruct r2; [exact E2|contradiction F2; reflexivity].
  - destruct (process_in_scope_tracked _ _ _ _ _ _ Hi Hte Hpa) as [Na [Ka _]].
    set (ids := filter (fun h => negb (mem h (map fst his))) (map fst te)) in HP1.
    assert (Hids : forall h, In h ids <-> In h (map fst te) /\ ~ In h (map fst his))
      by (intros h; apply In_filter_not_mem).
    assert (Hok : snd (process_cleared ids te_a evs_a) = None).
    { apply process_cleared_ok; [apply NoDup_filter; exact Hte|exact Na|].
      intros h Hh2. apply Ka. left. apply Hids in Hh2. tauto. }
    rewrite HP1 in Hok. cbn [snd] in Hok. subst err1.
    destruct (process_cleared_tracked ids te_a evs_a te1 evs1 Na HP1) as [N1 [K1 _]].
    assert (Heq : forall h, In h (map fst his) -> assoc_get te_a h = assoc_get te1 h).
    { intros h Hh'. symmetry.
      apply (process_cleared_other ids te_a evs_a te1 evs1 None Na HP1).
      rewrite Hids. tauto. }
    pose proof (quiet_upto_ext te_a te1 his Heq Qa) as Q1.
    destruct (pass2_quiet te1 (map fst te1) his te1 [] Hi (fun h _ => eq_refl)
                (fun h _ => keys_lookup te1 h) Q1) as [E2 _].
    assert (Hall : filter (fun h => negb (mem h (map fst his))) (map fst te1) = []).
    { apply filter_all_false. intros h Hin. apply K1 in Hin as [Hin Hno]. apply Ka in Hin.
      destruct (mem h (map fst his)) eqn:Hm; [reflexivity|exfalso].
      assert (Hna : ~ In h (map fst his)) by (intros H; apply mem_In in H; congruence).
      destruct Hin as [Hin|Hin].
      + apply Hno. apply Hids. tauto.
      + apply Hna. eapply new_ok_in. exact Hin. }
    rewrite Hall.
    destruct (process_in_scope (map fst te1) his te1 []) as [[t2 e2] r2].
    cbn [fst snd] in E2.
    destruct r2; cbn; exact E2.
Qed.

(** The first run over one in-range accident with nothing tracked, then
    the second run over the same data. *)
Lemma second_pass_quiet_witness :
  NoDup (map fst ([] : tracked)) /\
  snd (fst (update_entities (env_home 5) (data_of [fA1])
    (fst (fst (update_entities (env_home 5) (data_of [fA1]) []))))) = [].
Proof.
  split; [constructor|].
  apply (second_pass_quiet (env_home 5) (data_of [fA1]) []). constructor.
Defined.

End Idempotence.

Module UtilFacts.

Import Util.

Local Open Scope list_scope.

Lemma split_dot_nonempty (s : string) : split_dot s <> [].
Proof.
  induction s as [|c r IH]; simpl; [discriminate|].
  destruct (split_dot r); [discriminate|].
  destruct (Ascii.eqb c "."); discriminate.
Qed.

Lemma split_dot_app (p q : string) :
  split_dot (p ++ "." ++ q)%string = split_dot p ++ split_dot q.
Proof.
  induction p as [|c p IH].
  - cbn [append split_dot]. pose proof (split_dot_nonempty q) as Hq.
    destruct (split_dot q); [contradiction|reflexivity].
  - change ((String c p ++ "." ++ q)%string) with (String c (p ++ "." ++ q)%string).
    cbn [split_dot]. rewrite IH.
  pose proof (split_dot_nonempty p) as Hn.
  destruct (split_dot p) as [|x xs]; [contradiction|].
  cbn [List.app]. destruct (Ascii.eqb c "."); reflexivity.
Qed.

Lemma nested_go_app (k1 k2 : list string) :
  forall v, nested_go (k1 ++ k2) v =
            match nested_go k1 v with Some w => nested_go k2 w | None => None end.
Proof.
  induction k1 as [|k r IH]; intros v; [reflexivity|].
  cbn [List.app nested_go]. destruct v; try reflexivity.
  - destruct (isdigit k); [|reflexivity].
    destruct (N.ltb _ _); [|reflexivity].
    destruct (nth_error _ _); [apply IH|reflexivity].
  - destruct (dict_get d k); [apply IH|reflexivity].
Qed.

(** Nested dicts with one key per level. *)
Fixpoint nest (ks : list string) (v : pyval) : pyval :=
  match ks with
  | [] => v
  | k :: r => PDict [(k, nest r v)]
  end.

Definition dot_free (s : string) : bool :=
  forallb (fun c => negb (Ascii.eqb c ".")) (list_ascii_of_string s).

Lemma split_dot_dot_free (s : string) : dot_free s = true -> split_dot s = [s].
Proof.
  induction s as [|c r IH]; [reflexivity|].
  unfold dot_free. cbn [list_ascii_of_string forallb]. intros H.
  apply andb_true_iff in H as [Hc Hr].
  cbn [split_dot]. rewrite (IH Hr).
  destruct (Ascii.eqb c "."); [discriminate Hc|reflexivity].
Qed.

Lemma split_dot_concat (k : string) (ks : list string) :
  forallb dot_free (k :: ks) = true ->
  split_dot (String.concat "." (k :: ks)) = k :: ks.
Proof.
  revert k. induction ks as [|k' r IH]; intros k H; cbn [forallb] in H.
  - apply andb_true_iff in H as [H _]. simpl. apply split_dot_dot_free. exact H.
  - apply andb_true_iff in H as [Hk H].
    change (String.concat "." (k :: k' :: r)) with ((k ++ "." ++ String.concat "." (k' :: r))%string).
    rewrite split_dot_app, (split_dot_dot_free k Hk), (IH k' H). reflexivity.
Qed.

Open Scope N_scope.

Definition digit_step (acc : N) (c : ascii) : N :=
  acc * 10 + (N.of_nat (nat_of_ascii c) - 48).

Lemma digit_char (r : N) :
  r < 10 ->
  is_digit (ascii_of_N (48 + r)) = true /\
  N.of_nat (nat_of_ascii (ascii_of_N (48 + r))) - 48 = r.
Proof.
  intros H. unfold is_digit, nat_of_ascii.
  rewrite N_ascii_embedding by lia. rewrite Nnat.N2Nat.id. split; [|lia].
  apply andb_true_iff. split; apply Nat.leb_le; lia.
Qed.

Lemma digits_N_S (f : nat) (n : N) (acc : string) :
  digits_N (S f) n acc =
  (if N.ltb n 10 then String (ascii_of_N (48 + N.modulo n 10)) acc
   else digits_N f (N.div n 10) (String (ascii_of_N (48 + N.modulo n 10)) acc)).
Proof. reflexivity. Qed.

Lemma digits_N_spec (f : nat) :
  forall n acc, n < 10 ^ N.of_nat (S f) ->
  exists ds, list_ascii_of_string (digits_N (S f) n acc) = ds ++ list_ascii_of_string acc /\
             ds <> [] /\ forallb is_digit ds = true /\ fold_left digit_step ds 0 = n.
Proof.
  induction f as [|f IH]; intros n acc Hn.
  - assert (Hlt : n < 10) by (simpl in Hn; lia).
    rewrite digits_N_S. cbv zeta. rewrite (proj2 (N.ltb_lt n 10) Hlt).
    exists [ascii_of_N (48 + n mod 10)].
    destruct (digit_char (n mod 10) ltac:(apply N.mod_lt; lia)) as [D V].
    split; [reflexivity|]. split; [discriminate|]. split; [cbn [forallb]; rewrite D; reflexivity|].
    cbn [fold_left]. unfold digit_step. rewrite V. rewrite N.mod_small by exact Hlt. lia.
  - rewrite digits_N_S. cbv zeta.
    destruct (digit_char (n mod 10) ltac:(apply N.mod_lt; lia)) as [D V].
    destruct (N.ltb_spec n 10) as [Hlt|Hge].
    + exists [ascii_of_N (48 + n mod 10)].
      split; [reflexivity|]. split; [discriminate|]. split; [cbn [forallb]; rewrite D; reflexivity|].
      cbn [fold_left]. unfold digit_step. rewrite V. rewrite N.mod_small by exact Hlt. lia.
    + assert (Hd : n / 10 < 10 ^ N.of_nat (S f)).
      { apply N.Div0.div_lt_upper_bound.
        rewrite (Nnat.Nat2N.inj_succ (S f)), N.pow_succ_r' in Hn. exact Hn. }
      destruct (IH (n / 10) (String (ascii_of_N (48 + n mod 10)) acc) Hd)
        as [ds [E [Hne [Hdg Hv]]]].
      exists (ds ++ [ascii_of_N (48 + n mod 10)]).
      rewrite E. cbn [list_ascii_of_string]. rewrite <- app_assoc. split; [reflexivity|].
      split; [destruct ds; [contradiction|discriminate]|].
      split; [rewrite forallb_app, Hdg; cbn [forallb]; rewrite D; reflexivity|].
      rewrite fold_left_app, Hv. cbn [fold_left]. unfold digit_step. rewrite V.
      pose proof (N.div_mod n 10). lia.
Qed.

Lemma str_N_digits (n : N) :
  isdigit (str_N n) = true /\ int_of_digits (str_N n) = n.
Proof.
  unfold str_N.
  assert (Hb : n < 10 ^ N.of_nat (S (N.to_nat (N.size n)))).
  { rewrite Nnat.Nat2N.inj_succ, Nnat.N2Nat.id. pose proof (N.size_gt n) as Hs.
    apply (N.lt_le_trans _ _ _ Hs). apply N.le_trans with (10 ^ N.size n).
    - apply N.pow_le_mono_l. lia.
    - apply N.pow_le_mono_r; lia. }
  destruct (digits_N_spec _ n "" Hb) as [ds [E [Hne [Hdg Hv]]]].
  change (list_ascii_of_string "") with (@nil ascii) in E. rewrite app_nil_r in E.
  generalize dependent (digits_N (S (N.to_nat (N.size n))) n ""). intros s E.
  split.
  - unfold isdigit. destruct s as [|c r].
    + exfalso. apply Hne. rewrite <- E. reflexivity.
    + rewrite <- E in Hdg. exact Hdg.
  - unfold int_of_digits. rewrite E. exact Hv.
Qed.

Lemma is_digit_not_dot (c : ascii) : is_digit c = true -> Ascii.eqb c "." = false.
Proof.
  intros H. destruct (Ascii.eqb_spec c ".") as [->|]; [discriminate H|reflexivity].
Qed.

Lemma digits_dot_free (s : string) : isdigit s = true -> dot_free s = true.
Proof.
  unfold isdigit, dot_free. intros H.
  assert (H' : forallb is_digit (list_ascii_of_string s) = true) by (destruct s; [discriminate|exact H]).
  clear H. induction (list_ascii_of_string s) as [|c r IH]; [reflexivity|].
  cbn [forallb] in H' |- *. apply andb_true_iff in H' as [Hc Hr].
  rewrite (is_digit_not_dot c Hc), (IH Hr). reflexivity.
Qed.

Close Scope N_scope.

Lemma nested_go_nest (ks : list string) (v : pyval) : nested_go ks (nest ks v) = Some v.
Proof.
  induction ks as [|k r IH]; [reflexivity|].
  cbn [nest nested_go dict_get]. rewrite String.eqb_refl. exact IH.
Qed.

Lemma nested_go_index (l : list pyval) (n : N) (rest : list string) :
  nested_go (str_N n :: rest) (PList l) =
  match nth_error l (N.to_nat n) with Some v => nested_go rest v | None => None end.
Proof.
  destruct (str_N_digits n) as [Hd Hi].
  cbn [nested_go]. rewrite Hd. fold (int_of_digits (str_N n)). rewrite Hi.
  destruct (N.ltb_spec n (N.of_nat (List.length l))) as [Hlt|Hge].
  - reflexivity.
  - assert (Hn : (List.length l <= N.to_nat n)%nat) by lia.
    apply nth_error_None in Hn. rewrite Hn. reflexivity.
Qed.

Lemma minus_not_digit (s : string) : isdigit ("-" ++ s) = false.
Proof. reflexivity. Qed.

(** Extra (util.py, [get_nested_value]): a dotted path is looked up one
    piece after the other: the value at ["p.q"] is the value at [q] inside
    the value reached by [p], and the default as soon as [p] leads
    nowhere. *)
Theorem get_nested_value_compose (data default : pyval) (p q : string) :
  get_nested_value data (p ++ "." ++ q)%string default =
  match nested_go (split_dot p) data with
  | Some v => get_nested_value v q default
  | None => default
  end.
Proof.
  unfold get_nested_value. rewrite split_dot_app, nested_go_app.
  destruct (nested_go (split_dot p) data); reflexivity.
Qed.

(** Extra (util.py, [get_nested_value]): the value stored under nested
    dicts with keys [k1], ..., [kn] (none containing a dot) is read back by
    the path ["k1.k2...kn"]. *)
Theorem get_nested_value_nest (k : string) (ks : list string) (v default : pyval) :
  forallb dot_free (k :: ks) = true ->
  get_nested_value (nest (k :: ks) v) (String.concat "." (k :: ks)) default = v.
Proof.
  intros H. unfold get_nested_value. rewrite (split_dot_concat k ks H), nested_go_nest.
  reflexivity.
Qed.

Lemma get_nested_value_nest_witness :
  forallb dot_free ["features"; "0"] = true /\
  get_nested_value (nest ["features"; "0"] (PInt 7)) "features.0" PNone = PInt 7.
Proof.
  split; [vm_compute; reflexivity|].
  apply (get_nested_value_nest "features" ["0"] (PInt 7) PNone). vm_compute. reflexivity.
Defined.

(** Extra (util.py, [get_nested_value]): a list is indexed by the decimal
    text of a natural number, with the default past its end. *)
Theorem get_nested_value_list_index (l : list pyval) (n : N) (default : pyval) :
  get_nested_value (PList l) (str_N n) default = nth (N.to_nat n) l default.
Proof.
  unfold get_nested_value.
  rewrite (split_dot_dot_free _ (digits_dot_free _ (proj1 (str_N_digits n)))).
  rewrite nested_go_index. cbn [nested_go].
  destruct (nth_error l (N.to_nat n)) as [v|] eqn:E.
  - symmetry. apply nth_error_nth. exact E.
  - symmetry. apply nth_overflow. apply nth_error_None. exact E.
Qed.

(** Extra (util.py, [get_nested_value]): a negative index is never used:
    the key ["-k"] on a list gives the default, where Python's [l[-k]]
    would count from the end. *)
Theorem get_nested_value_negative_index (l : list pyval) (p : positive) (default : pyval) :
  get_nested_value (PList l) (str_Z (Z.neg p)) default = default.
Proof.
  unfold get_nested_value, str_Z.
  assert (Hf : dot_free ("-" ++ str_N (N.pos p)) = true).
  { unfold dot_free. cbn [list_ascii_of_string append forallb].
    apply (digits_dot_free _ (proj1 (str_N_digits (N.pos p)))). }
  rewrite (split_dot_dot_free _ Hf). cbn [nested_go]. rewrite minus_not_digit. reflexivity.
Qed.

(** Extra (util.py, [get_nested_value]): from a value that is neither a
    dict nor a list every path, the empty one included, gives the
    default. *)
Theorem get_nested_value_scalar (v default : pyval) (path : string) :
  match v with PDict _ | PList _ => false | _ => true end = true ->
  get_nested_value v path default = default.
Proof.
  intros H. unfold get_nested_value.
  pose proof (split_dot_nonempty path) as Hn.
  destruct (split_dot path) as [|k r]; [contradiction|].
  destruct v; try discriminate H; reflexivity.
Qed.

Lemma get_nested_value_scalar_witness :
  match PStr "abc" with PDict _ | PList _ => false | _ => true end = true /\
  get_nested_value (PStr "abc") "0" PNone = PNone.
Proof.
  split; [reflexivity|]. apply (get_nested_value_scalar (PStr "abc") PNone "0"). reflexivity.
Defined.

End UtilFacts.

Module FlowFacts.

Import Api Geo ConfigFlow AssocFacts.

Lemma async_get_hazards_nonempty (k : string) (net : network) (paths : list string) :
  k <> "" -> exists fs, async_get_hazards k net paths = Ok (feature_collection fs).
Proof.
  intros Hk. unfold async_get_hazards. apply String.eqb_neq in Hk. rewrite Hk.
  destruct paths; eexists; reflexivity.
Qed.

Lemma validate_api_key_nonempty (net : network) (k : string) :
  k <> "" -> validate_api_key net k = None.
Proof.
  intros Hk. unfold validate_api_key.
  destruct (async_get_hazards_nonempty k net DEFAULT_HAZARD_TYPES_API_PATHS Hk) as [fs ->].
  reflexivity.
Qed.

Lemma dict_get_assoc_get (l : list (string * pyval)) (k : string) :
  dict_get l k = assoc_get l k.
Proof.
  induction l as [|[k' v] r IH]; simpl; [reflexivity|].
  destruct (String.eqb k k'); [reflexivity|exact IH].
Qed.

(** Extra (config_flow.py, [async_step_user] and [_validate_api_key]):
    the key check is only as strong as the client's emptiness test: a
    non-empty key creates the entry, with the default options, whatever
    the server answers (every request rejected with 401 included). *)
Theorem user_step_accepts_nonempty_key (net : network) (ui : list (string * pyval))
  (k : pyval) :
  dict_get ui "api_key" = Some k -> api_key_text k <> "" ->
  async_step_user false net (Some ui) =
    Ok (CreateEntry "NSW Live Traffic" ui default_options).
Proof.
  intros Hk Hne. unfold async_step_user. rewrite Hk.
  rewrite (validate_api_key_nonempty net _ Hne). reflexivity.
Qed.

Lemma user_step_accepts_nonempty_key_witness :
  dict_get [("api_key", PStr "key")] "api_key" = Some (PStr "key") /\
  api_key_text (PStr "key") <> "" /\
  async_step_user false Inputs.net401 (Some [("api_key", PStr "key")]) =
    Ok (CreateEntry "NSW Live Traffic" [("api_key", PStr "key")] default_options).
Proof.
  split; [reflexivity|]. split; [vm_compute; discriminate|].
  apply (user_step_accepts_nonempty_key Inputs.net401 [("api_key", PStr "key")] (PStr "key")).
  - reflexivity.
  - vm_compute. discriminate.
Defined.

(** Extra (coordinator.py, [_async_update_data]; api.py,
    [async_get_hazards]): with a non-empty key a refresh always succeeds
    with a feature collection: [ConfigEntryAuthFailed] and [UpdateFailed]
    are never raised, whatever the server answers. *)
Theorem refresh_nonempty_key_succeeds (k : string) (net : network) (paths : list string) :
  k <> "" ->
  exists fs, Coordinator.async_update_data (async_get_hazards k net paths) =
             Ok (feature_collection fs).
Proof.
  intros Hk. destruct (async_get_hazards_nonempty k net paths Hk) as [fs ->].
  exists fs. reflexivity.
Qed.

Lemma refresh_nonempty_key_succeeds_witness :
  "key" <> "" /\
  exists fs, Coordinator.async_update_data
               (async_get_hazards "key" Inputs.net401 DEFAULT_HAZARD_TYPES_API_PATHS) =
             Ok (feature_collection fs).
Proof.
  split; [discriminate|].
  apply (refresh_nonempty_key_succeeds "key" Inputs.net401 DEFAULT_HAZARD_TYPES_API_PATHS).
  discriminate.
Defined.

(** Extra (config_flow.py, [async_step_user]; coordinator.py,
    [_async_update_data]): a falsy key is refused without any request:
    the form comes back with the error [invalid_auth], and a refresh with
    it raises [ConfigEntryAuthFailed]. *)
Theorem empty_key_rejected (net : network) (ui : list (string * pyval)) (k : pyval)
  (paths : list string) :
  dict_get ui "api_key" = Some k -> py_truthy k = false ->
  async_step_user false net (Some ui) = Ok (ShowForm "user" [("base", "invalid_auth")]) /\
  Coordinator.async_update_data (async_get_hazards (api_key_text k) net paths) =
    Err ConfigEntryAuthFailed.
Proof.
  intros Hk Ht. assert (He : api_key_text k = "") by (unfold api_key_text; rewrite Ht; reflexivity).
  split.
  - unfold async_step_user. rewrite Hk, He. reflexivity.
  - rewrite He. reflexivity.
Qed.

Lemma empty_key_rejected_witness :
  dict_get [("api_key", PStr "")] "api_key" = Some (PStr "") /\ py_truthy (PStr "") = false /\
  async_step_user false Inputs.net401 (Some [("api_key", PStr "")]) =
    Ok (ShowForm "user" [("base", "invalid_auth")]) /\
  Coordinator.async_update_data
    (async_get_hazards (api_key_text (PStr "")) Inputs.net401 DEFAULT_HAZARD_TYPES_API_PATHS) =
    Err ConfigEntryAuthFailed.
Proof.
  split; [reflexivity|]. split; [reflexivity|].
  apply (empty_key_rejected Inputs.net401 [("api_key", PStr "")] (PStr "")
           DEFAULT_HAZARD_TYPES_API_PATHS); reflexivity.
Defined.

Lemma num_lt_false_nonneg (v : pyval) (c : Q) :
  is_int_or_float v = true -> num_lt v c = false ->
  exists q, num_of v = Some q /\ (c <= q)%Q.
Proof.
  unfold num_lt. intros Hv Hl. destruct (num_of v) as [q|] eqn:E.
  - exists q. split; [reflexivity|]. apply Qle_bool_iff. destruct (Qle_bool c q); [reflexivity|discriminate].
  - destruct v; discriminate.
Qed.

Lemma options_errors_nil (ui : list (string * pyval)) :
  options_errors ui = [] ->
  (negb (is_int_or_float (get_default ui "home_radius" DEFAULT_HOME_RADIUS_KM)) ||
   num_lt (get_default ui "home_radius" DEFAULT_HOME_RADIUS_KM) 0) = false /\
  (negb (is_int_or_float (get_default ui "device_radius" DEFAULT_DEVICE_RADIUS_KM)) ||
   num_lt (get_default ui "device_radius" DEFAULT_DEVICE_RADIUS_KM) 0) = false /\
  (negb (is_int (get_default ui "scan_interval" DEFAULT_SCAN_INTERVAL_MINUTES)) ||
   num_lt (get_default ui "scan_interval" DEFAULT_SCAN_INTERVAL_MINUTES)
     MIN_SCAN_INTERVAL_MINUTES) = false.
Proof.
  unfold options_errors. cbv zeta.
  destruct (_ || _); [discriminate|].
  destruct (_ || _); [discriminate|].
  destruct (_ || _); [discriminate|]. auto.
Qed.

Lemma radius_ok (v : pyval) :
  (negb (is_int_or_float v) || num_lt v 0) = false ->
  exists q, num_of v = Some q /\ (0 <= q)%Q.
Proof.
  intros H. apply orb_false_iff in H as [H1 H2]. apply negb_false_iff in H1.
  exact (num_lt_false_nonneg v 0 H1 H2).
Qed.

(** Extra (config_flow.py, [NswLiveTrafficOptionsFlowHandler.async_step_init]):
    when the options step saves, the home and device radii in force are
    numbers (int, float or bool) that are not negative, and the scan
    interval is an int of at least 1 or [True]; the saved options are the
    old ones updated with the input, under an empty title. *)
Theorem options_saved_valid (options ui : list (string * pyval)) (title : string)
  (data opts : list (string * pyval)) :
  options_step_init options (Some ui) = CreateEntry title data opts ->
  title = "" /\ data = dict_update options ui /\ opts = [] /\
  (exists q, num_of (get_default ui "home_radius" DEFAULT_HOME_RADIUS_KM) = Some q /\ (0 <= q)%Q) /\
  (exists q, num_of (get_default ui "device_radius" DEFAULT_DEVICE_RADIUS_KM) = Some q /\ (0 <= q)%Q) /\
  ((exists z, get_default ui "scan_interval" DEFAULT_SCAN_INTERVAL_MINUTES = PInt z /\ (1 <= z)%Z) \/
   get_default ui "scan_interval" DEFAULT_SCAN_INTERVAL_MINUTES = PBool true).
Proof.
  unfold options_step_init. destruct (options_errors ui) as [|e r] eqn:E; [|discriminate].
  intros H. injection H as <- <- <-.
  destruct (options_errors_nil ui E) as [Hh [Hd Hs]].
  split; [reflexivity|]. split; [reflexivity|]. split; [reflexivity|].
  split; [apply radius_ok; exact Hh|]. split; [apply radius_ok; exact Hd|].
  apply orb_false_iff in Hs as [Hs1 Hs2]. apply negb_false_iff in Hs1.
  destruct (get_default ui "scan_interval" DEFAULT_SCAN_INTERVAL_MINUTES) as [| [] |z| | | |];
    try discriminate Hs1.
  - right. reflexivity.
  - discriminate Hs2.
  - left. exists z. split; [reflexivity|].
    unfold num_lt, MIN_SCAN_INTERVAL_MINUTES in Hs2. cbn [num_of] in Hs2.
    apply negb_false_iff, Qle_bool_iff in Hs2. rewrite Zle_Qle. exact Hs2.
Qed.

Lemma options_saved_valid_witness :
  options_step_init default_options (Some [("scan_interval", PInt 10)]) =
    CreateEntry "" (dict_update default_options [("scan_interval", PInt 10)]) [] /\
  (exists q, num_of (get_default [("scan_interval", PInt 10)] "home_radius"
                        DEFAULT_HOME_RADIUS_KM) = Some q /\ (0 <= q)%Q).
Proof.
  split; [vm_compute; reflexivity|].
  apply (options_saved_valid default_options [("scan_interval", PInt 10)] ""
           (dict_update default_options [("scan_interval", PInt 10)]) []).
  vm_compute. reflexivity.
Defined.

(** Extra (config_flow.py, [NswLiveTrafficOptionsFlowHandler.async_step_init],
    [self.options.update]): in the saved options every key of the input
    has the input's value and every other key keeps its old value. *)
Theorem options_update_lookup (options ui : list (string * pyval)) (k : string) :
  NoDup (map fst ui) ->
  dict_get (dict_update options ui) k =
  match dict_get ui k with Some v => Some v | None => dict_get options k end.
Proof.
  unfold dict_update. revert options.
  induction ui as [|[k' v] r IH]; intros options Hnd; [reflexivity|].
  inversion Hnd as [|? ? Hn Hd]; subst.
  cbn [fold_left fst snd]. rewrite (IH _ Hd). rewrite !dict_get_assoc_get.
  rewrite assoc_get_insert. cbn [assoc_get].
  destruct (String.eqb_spec k k') as [->|Hne].
  - rewrite (assoc_get_none r k' Hn). reflexivity.
  - destruct (assoc_get r k); reflexivity.
Qed.

Lemma options_update_lookup_witness :
  NoDup (map fst [("home_radius", PInt 3); ("scan_interval", PInt 10)]) /\
  dict_get (dict_update default_options [("home_radius", PInt 3); ("scan_interval", PInt 10)])
    "home_radius" = Some (PInt 3).
Proof.
  assert (Hnd : NoDup (map fst [("home_radius", PInt 3); ("scan_interval", PInt 10)])).
  { simpl. constructor; [simpl; intros [H|[]]; discriminate H|].
    constructor; [intros []|constructor]. }
  split; [exact Hnd|].
  rewrite (options_update_lookup default_options _ "home_radius" Hnd). reflexivity.
Defined.

(** Extra (config_flow.py, [NswLiveTrafficOptionsFlowHandler.async_step_init]):
    a float scan interval is always refused, [5.0] included: the form
    comes back with [invalid_scan_interval] on [scan_interval]. *)
Theorem float_scan_interval_rejected (options ui : list (string * pyval)) (q : Q) (r : string) :
  dict_get ui "scan_interval" = Some (PFloat q r) ->
  exists errors, options_step_init options (Some ui) = ShowForm "init" errors /\
                 In ("scan_interval", "invalid_scan_interval") errors.
Proof.
  intros H. unfold options_step_init.
  assert (Hin : In ("scan_interval", "invalid_scan_interval") (options_errors ui)).
  { assert (Hg : get_default ui "scan_interval" DEFAULT_SCAN_INTERVAL_MINUTES = PFloat q r)
      by (unfold get_default; rewrite H; reflexivity).
    unfold options_errors. cbv zeta. rewrite Hg.
    apply in_or_app. right. apply in_or_app. right. left. reflexivity. }
  destruct (options_errors ui) as [|e l] eqn:E; [contradiction|].
  exists (e :: l). split; [reflexivity|exact Hin].
Qed.

Lemma float_scan_interval_rejected_witness :
  dict_get [("scan_interval", PFloat 5 "5.0")] "scan_interval" = Some (PFloat 5 "5.0") /\
  exists errors, options_step_init default_options (Some [("scan_interval", PFloat 5 "5.0")]) =
                   ShowForm "init" errors /\
                 In ("scan_interval", "invalid_scan_interval") errors.
Proof.
  split; [reflexivity|].
  apply (float_scan_interval_rejected default_options _ 5 "5.0"). reflexivity.
Defined.

(** Extra (util.py, [get_geojson_properties_get_first_url]): the URL is
    always [None] or a string, for any argument, and a non-empty string
    [weblinkUrl] is chosen over [webLinks]. *)
Theorem first_url_shape (props : pyval) :
  (get_geojson_properties_get_first_url props = PNone \/
   exists s, get_geojson_properties_get_first_url props = PStr s) /\
  (forall d s, props = PDict d -> dict_get d "weblinkUrl" = Some (PStr s) -> s <> "" ->
     get_geojson_properties_get_first_url props = PStr s).
Proof.
  split.
  - unfold get_geojson_properties_get_first_url.
    destruct props as [| | | | | |d]; try (left; reflexivity).
    repeat match goal with
           | |- context [match ?x with _ => _ end] => destruct x
           end; eauto.
  - intros d s -> Hw Hs. unfold get_geojson_properties_get_first_url. rewrite Hw.
    apply String.eqb_neq in Hs. rewrite Hs. reflexivity.
Qed.

End FlowFacts.

Module SetupFacts.

Import Geo SensorSetup AssocFacts.










End SetupFacts.

Module EntityFacts.

Import Geo AssocFacts.

Lemma assoc_get_filter {A} (p : string * A -> bool) (l : list (string * A)) (k : string) (v : A) :
  assoc_get l k = Some v -> p (k, v) = true -> assoc_get (filter p l) k = Some v.
Proof.
  induction l as [|[k' v'] r IH]; cbn [assoc_get filter]; intros H Hp; [discriminate|].
  destruct (String.eqb_spec k k') as [->|Hne].
  - injection H as ->. rewrite Hp. cbn [assoc_get]. rewrite String.eqb_refl. reflexivity.
  - destruct (p (k', v')); [cbn [assoc_get]; apply String.eqb_neq in Hne; rewrite Hne|]; auto.
Qed.

Lemma Ok_inj {A} (x y : A) : Ok x = Ok y -> x = y.
Proof. intros H. injection H. auto. Qed.

Definition not_none (kv : string * aval) : bool :=
  match snd kv with AV PNone => false | _ => true end.

Lemma compute_attrs_ok (h : string) (props : pyval) (a : attrs) :
  compute_attrs h props = Ok a ->
  exists all, a = filter not_none all /\
    assoc_get all "hazard_id" = Some (AV (PStr h)) /\
    assoc_get all "ended" = Some (AV (get_or props "ended" (PBool false))) /\
    assoc_get all "is_event" = Some (AV (get_or props "isEvent" (PBool false))) /\
    assoc_get all "web_link" = Some (AV (get_geojson_properties_get_first_url props)).
Proof.
  unfold compute_attrs. intros H.
  destruct (ts_attr props "created") as [c|x]; [|discriminate H]. cbn [bind] in H.
  destruct (ts_attr props "lastUpdated") as [lu|x]; [|discriminate H]. cbn [bind] in H.
  destruct (py_get props "roads" (PList [])) as [rv|x]; [|discriminate H]. cbn [bind] in H.
  destruct (py_iter rv) as [rs|x]; [|discriminate H]. cbn [bind] in H.
  destruct (ts_attr props "start") as [st|x]; [|discriminate H]. cbn [bind] in H.
  destruct (ts_attr props "end") as [en|x]; [|discriminate H]. cbn [bind] in H.
  apply Ok_inj in H. subst a. eexists. split; [reflexivity|].
  split; [reflexivity|]. split; [reflexivity|]. split; [reflexivity|]. reflexivity.
Qed.

Lemma construct_fields (d : pyval) (e : entity) :
  construct d = Ok e ->
  exists e1, update_hazard_data blank_entity d = (e1, None) /\
    e_hazard_id e = e_hazard_id e1 /\ e_lat e = e_lat e1 /\ e_lon e = e_lon e1 /\
    e_attrs e = e_attrs e1.
Proof.
  unfold construct. destruct (update_hazard_data blank_entity d) as [e1 [x|]]; [discriminate|].
  intros H. destruct (slugify _) as [sl|x]; [|discriminate H]. cbn [bind] in H.
  apply Ok_inj in H. subst e. exists e1. auto.
Qed.

Lemma construct_id (dd p : list (string * pyval)) (e : entity) :
  construct (PDict dd) = Ok e ->
  dict_get dd "properties" = Some (PDict p) ->
  py_str (get_or (PDict p) "id" (get_or (PDict dd) "id" PNone)) <> "" ->
  e_hazard_id e = py_str (get_or (PDict p) "id" (get_or (PDict dd) "id" PNone)) /\
  compute_attrs (py_str (get_or (PDict p) "id" (get_or (PDict dd) "id" PNone))) (PDict p) =
    Ok (e_attrs e).
Proof.
  intros H Hp Hne. apply construct_fields in H as [e1 [U [Hh [_ [_ Ha]]]]].
  rewrite Hh, Ha. clear Hh Ha.
  unfold update_hazard_data in U. cbn [py_get] in U. rewrite Hp in U. cbn [py_get] in U.
  cbn [get_or] in Hne |- *. apply String.eqb_neq in Hne. rewrite Hne in U.
  match type of U with (match ?pos with _ => _ end = _) => destruct pos as [[la lo]|x] end;
    [|discriminate U].
  match type of U with (match compute_attrs ?h ?q with _ => _ end = _) =>
    destruct (compute_attrs h q) as [a|x] eqn:Ec; [|discriminate U] end.
  apply (f_equal fst) in U. cbn [fst] in U. subst e1. split; reflexivity.
Qed.

(** Extra (geo_location.py, [update_state_and_attributes]): an entity
    gets a position only from exactly two coordinates, latitude second:
    with coordinates [[lon; lat]] it is at ([lat], [lon]); with any other
    number of coordinates (three, as in [[lon; lat; alt]], which the scope
    check lets through) its latitude and longitude are [None]. *)
Theorem construct_position (dd g : list (string * pyval)) (l : list pyval) (e : entity) :
  construct (PDict dd) = Ok e ->
  dict_get dd "geometry" = Some (PDict g) -> dict_get g "coordinates" = Some (PList l) ->
  (e_lat e, e_lon e) = match l with [lo; la] => (la, lo) | _ => (PNone, PNone) end.
Proof.
  intros H Hg Hc. apply construct_fields in H as [e1 [U [_ [Hla [Hlo _]]]]].
  rewrite Hla, Hlo. clear Hla Hlo.
  unfold update_hazard_data in U. cbn [py_get] in U. rewrite Hg in U.
  cbn [py_get] in U. rewrite Hc in U.
  destruct (match dict_get dd "properties" with Some x => x | None => PDict [] end) as [| | | | | |p];
    cbn [py_get] in U; try discriminate U.
  match type of U with (match ?hid with _ => _ end = _) => destruct hid as [h|x]; [|discriminate U] end.
  cbn [bind] in U.
  destruct l as [|lo [|la [|z r]]];
    cbn [py_truthy py_len List.length Nat.eqb py_index nth_error bind] in U;
    (destruct (compute_attrs _ _) as [a|x]; [|discriminate U]);
    apply (f_equal fst) in U; cbn [fst] in U; subst e1; reflexivity.
Qed.

Lemma get_or_absent (props : pyval) (k : string) (v : pyval) :
  dict_has props k = false -> get_or props k v = v.
Proof.
  destruct props as [| | | | | |d]; try reflexivity. cbn [dict_has get_or].
  destruct (dict_get d k); [discriminate|reflexivity].
Qed.

(** Extra (geo_location.py, [update_state_and_attributes]): the attribute
    dict never holds [None]; it always carries the hazard id; [ended] and
    [is_event] are [False] when the properties lack them; and [web_link]
    is the URL found in the properties whenever there is one. *)
Theorem compute_attrs_shape (hazard_id : string) (props : pyval) (a : attrs) :
  compute_attrs hazard_id props = Ok a ->
  (forall k, ~ In (k, AV PNone) a) /\
  assoc_get a "hazard_id" = Some (AV (PStr hazard_id)) /\
  (dict_has props "ended" = false -> assoc_get a "ended" = Some (AV (PBool false))) /\
  (dict_has props "isEvent" = false -> assoc_get a "is_event" = Some (AV (PBool false))) /\
  (forall s, get_geojson_properties_get_first_url props = PStr s ->
     assoc_get a "web_link" = Some (AV (PStr s))).
Proof.
  intros H. destruct (compute_attrs_ok _ _ _ H) as [all [-> [Hh [He [Hi Hw]]]]].
  split; [|split; [|split; [|split]]].
  - intros k Hin. apply filter_In in Hin as [_ Hn]. discriminate Hn.
  - apply assoc_get_filter; [exact Hh|reflexivity].
  - intros Hd. rewrite get_or_absent in He by exact Hd. apply assoc_get_filter; [exact He|reflexivity].
  - intros Hd. rewrite get_or_absent in Hi by exact Hd. apply assoc_get_filter; [exact Hi|reflexivity].
  - intros s Hs. rewrite Hs in Hw. apply assoc_get_filter; [exact Hw|reflexivity].
Qed.

Lemma compute_attrs_shape_witness :
  compute_attrs "A1" (PDict []) =
    Ok [("hazard_id", AV (PStr "A1")); ("roads", AV (PList []));
        ("ended", AV (PBool false)); ("is_event", AV (PBool false));
        ("hazard_type_dn", AV (PStr "None"))] /\
  assoc_get [("hazard_id", AV (PStr "A1")); ("roads", AV (PList []));
             ("ended", AV (PBool false)); ("is_event", AV (PBool false));
             ("hazard_type_dn", AV (PStr "None"))] "ended" = Some (AV (PBool false)).
Proof.
  assert (H : compute_attrs "A1" (PDict []) =
    Ok [("hazard_id", AV (PStr "A1")); ("roads", AV (PList []));
        ("ended", AV (PBool false)); ("is_event", AV (PBool false));
        ("hazard_type_dn", AV (PStr "None"))]) by (vm_compute; reflexivity).
  split; [exact H|].
  destruct (compute_attrs_shape _ _ _ H) as [_ [_ [He _]]]. apply He. reflexivity.
Defined.

(** Extra (geo_location.py, [update_hazard_data]): the entity's hazard id
    is the text of [properties.id], else of the root [id], whenever that
    text is non-empty; the same id is the [hazard_id] attribute.  A
    feature with no id at all gets the id ["None"] ([str(None)]); the
    generated [missingid_...] id is only used for an empty id. *)
Theorem construct_hazard_id (dd p : list (string * pyval)) (e : entity) :
  construct (PDict dd) = Ok e ->
  dict_get dd "properties" = Some (PDict p) ->
  py_str (get_or (PDict p) "id" (get_or (PDict dd) "id" PNone)) <> "" ->
  e_hazard_id e = py_str (get_or (PDict p) "id" (get_or (PDict dd) "id" PNone)) /\
  assoc_get (e_attrs e) "hazard_id" =
    Some (AV (PStr (py_str (get_or (PDict p) "id" (get_or (PDict dd) "id" PNone))))).
Proof.
  intros H Hp Hne. destruct (construct_id dd p e H Hp Hne) as [Hh Ha].
  split; [exact Hh|]. destruct (compute_attrs_ok _ _ _ Ha) as [all [Hf [Hi _]]].
  rewrite Hf. apply assoc_get_filter; [exact Hi|reflexivity].
Qed.

Definition f_no_id_anywhere : pyval :=
  PDict [("properties", PDict [("headline", PStr "Debris")]);
         ("geometry", PDict [("type", PStr "Point"); ("coordinates", PList [PInt 151; PInt (-33)])])].

Lemma construct_hazard_id_witness :
  construct f_no_id_anywhere =
    Ok (match construct f_no_id_anywhere with Ok e => e | Err _ => blank_entity end) /\
  dict_get [("properties", PDict [("headline", PStr "Debris")]);
            ("geometry", PDict [("type", PStr "Point"); ("coordinates", PList [PInt 151; PInt (-33)])])]
    "properties" = Some (PDict [("headline", PStr "Debris")]) /\
  e_hazard_id (match construct f_no_id_anywhere with Ok e => e | Err _ => blank_entity end) = "None".
Proof.
  assert (H : construct f_no_id_anywhere =
    Ok (match construct f_no_id_anywhere with Ok e => e | Err _ => blank_entity end))
    by (vm_compute; reflexivity).
  split; [exact H|]. split; [reflexivity|].
  destruct (construct_hazard_id _ [("headline", PStr "Debris")] _ H eq_refl) as [Hh _].
  - vm_compute. discriminate.
  - exact Hh.
Defined.

Definition f_three_coords : pyval :=
  PDict [("id", PStr "E5"); ("properties", PDict [("headline", PStr "Fog")]);
         ("geometry", PDict [("type", PStr "Point");
                             ("coordinates", PList [PInt 151; PInt (-33); PInt 0])])].

Lemma construct_position_witness :
  construct f_three_coords =
    Ok (match construct f_three_coords with Ok e => e | Err _ => blank_entity end) /\
  (e_lat (match construct f_three_coords with Ok e => e | Err _ => blank_entity end),
   e_lon (match construct f_three_coords with Ok e => e | Err _ => blank_entity end)) =
    (PNone, PNone).
Proof.
  assert (H : construct f_three_coords =
    Ok (match construct f_three_coords with Ok e => e | Err _ => blank_entity end))
    by (vm_compute; reflexivity).
  split; [exact H|].
  exact (construct_position _ [("type", PStr "Point");
                               ("coordinates", PList [PInt 151; PInt (-33); PInt 0])]
           [PInt 151; PInt (-33); PInt 0] _ H eq_refl eq_refl).
Defined.

End EntityFacts.

Module PassExtra.

Import Geo AssocFacts Inputs.

Local Open Scope list_scope.

Definition updated_ok (ev : event) : Prop :=
  match ev with
  | Updated _ _ _ _ _ ch =>
      ch <> [] /\ forall k o v, In (k, (o, v)) ch ->
        In k SIGNIFICANT_ATTRIBUTE_KEYS /\ aval_eq o v = false
  | _ => True
  end.

Lemma changed_significant_attrs_ok (old new : attrs) (k : string) (o v : aval) :
  In (k, (o, v)) (changed_significant_attrs old new) ->
  In k SIGNIFICANT_ATTRIBUTE_KEYS /\ aval_eq o v = false.
Proof.
  unfold changed_significant_attrs. intros H. apply in_flat_map in H as [k' [Hk Hin]].
  destruct (aval_eq (attr_get old k') (attr_get new k')) eqn:E; [destruct Hin|].
  destruct Hin as [Heq|[]]. injection Heq as <- <- <-. split; assumption.
Qed.

Lemma Forall_snoc_updated (evs : list event) (ev : event) :
  Forall updated_ok evs -> updated_ok ev -> Forall updated_ok (evs ++ [ev]).
Proof. intros H1 H2. apply Forall_app. split; [exact H1|constructor; [exact H2|constructor]]. Qed.

Lemma process_in_scope_updated (cur : list string) (items : list (string * pyval)) :
  forall te evs, Forall updated_ok evs ->
  Forall updated_ok (snd (fst (process_in_scope cur items te evs))).
Proof.
  induction items as [|[hid d] rest IH]; intros te evs H; [exact H|].
  cbn [process_in_scope].
  destruct (negb (mem hid cur)).
  - destruct (construct d) as [e|x]; [|apply IH; exact H].
    apply IH. apply Forall_snoc_updated; [exact H|exact I].
  - destruct (assoc_get te hid) as [e|]; [|exact H].
    destruct (update_hazard_data e d) as [e' [x|]]; [exact H|].
    destruct (changed_significant_attrs (e_attrs e) (e_attrs e')) as [|c cs] eqn:Ec;
      [apply IH; exact H|].
    apply IH. apply Forall_snoc_updated; [exact H|].
    split; [discriminate|]. intros k o v Hin. rewrite <- Ec in Hin.
    exact (changed_significant_attrs_ok _ _ k o v Hin).
Qed.

Lemma process_cleared_updated (ids : list string) :
  forall te evs, Forall updated_ok evs ->
  Forall updated_ok (snd (fst (process_cleared ids te evs))).
Proof.
  induction ids as [|h rest IH]; intros te evs H; [exact H|].
  cbn [process_cleared]. destruct (assoc_get te h) as [e|]; [|exact H].
  apply IH. apply Forall_snoc_updated; [exact H|exact I].
Qed.

(** Extra (geo_location.py, [update_entities] and
    [changed_significant_attrs]): every update event of a pass carries a
    non-empty list of changes, each on a key of
    [SIGNIFICANT_ATTRIBUTE_KEYS] and between two different values. *)
Theorem updated_events_significant (en : env) (data : option (list (string * pyval)))
  (te : tracked) :
  let '(_, evs, _) := update_entities en data te in
  forall h name lat lon a ch, In (Updated h name lat lon a ch) evs ->
    ch <> [] /\ forall k o v, In (k, (o, v)) ch ->
      In k SIGNIFICANT_ATTRIBUTE_KEYS /\ aval_eq o v = false.
Proof.
  assert (Hall : Forall updated_ok (snd (fst (update_entities en data te)))).
  { unfold update_entities. destruct (hazards_in_scope en data) as [his|x]; [|constructor].
    pose proof (process_in_scope_updated (map fst te) his te [] (Forall_nil _)) as Hp.
    destruct (process_in_scope (map fst te) his te []) as [[te1 evs1] [x|]]; [exact Hp|].
    apply process_cleared_updated. exact Hp. }
  destruct (update_entities en data te) as [[te' evs] x]. cbn [fst snd] in Hall.
  intros h name lat lon a ch Hin. rewrite Forall_forall in Hall.
  exact (Hall _ Hin).
Qed.

Lemma process_cleared_all (te : tracked) :
  NoDup (map fst te) -> forall evs,
  process_cleared (map fst te) te evs =
    ([], evs ++ map (fun he => Cleared (fst he) (e_name (snd he)) (e_attrs (snd he))) te, None).
Proof.
  induction te as [|[h e] r IH]; intros Hnd evs; cbn [map process_cleared].
  - rewrite app_nil_r. reflexivity.
  - inversion Hnd as [|? ? Hn Hd]; subst.
    cbn [assoc_get assoc_remove fst snd]. rewrite String.eqb_refl.
    rewrite (IH Hd). rewrite <- app_assoc. reflexivity.
Qed.

Lemma filter_not_mem_nil (l : list string) : filter (fun h => negb (mem h [])) l = l.
Proof. induction l as [|a r IH]; cbn [filter]; [reflexivity|]. rewrite IH. reflexivity. Qed.

(** Extra (geo_location.py, [update_entities]): with no coordinator data,
    or data without a ["features"] key, the pass clears every tracked
    hazard: nothing stays tracked and one clear event is fired per tracked
    hazard, in tracking order. *)
Theorem no_features_clears_all (en : env) (data : option (list (string * pyval))) (te : tracked) :
  NoDup (map fst te) ->
  (data = None \/ exists d, data = Some d /\ dict_get d "features" = None) ->
  update_entities en data te =
    ([], map (fun he => Cleared (fst he) (e_name (snd he)) (e_attrs (snd he))) te, None).
Proof.
  intros Hnd Hd.
  assert (Hs : hazards_in_scope en data = Ok []).
  { destruct Hd as [->|[d [-> Hf]]]; [reflexivity|].
    unfold hazards_in_scope. destruct d; [reflexivity|]. rewrite Hf. reflexivity. }
  unfold update_entities. rewrite Hs. cbn [map process_in_scope].
  rewrite filter_not_mem_nil. rewrite (process_cleared_all te Hnd []). reflexivity.
Qed.

Lemma no_features_clears_all_witness :
  NoDup (map fst [("A1", Runs.entity_A1)]) /\
  (@None (list (string * pyval)) = None \/
   exists d, @None (list (string * pyval)) = Some d /\ dict_get d "features" = None) /\
  update_entities (env_home 1%R) None [("A1", Runs.entity_A1)] =
    ([], [Cleared "A1" (e_name Runs.entity_A1) (e_attrs Runs.entity_A1)], None).
Proof.
  assert (Hnd : NoDup (map fst [("A1", Runs.entity_A1)])) by (constructor; [intros []|constructor]).
  split; [exact Hnd|]. split; [left; reflexivity|].
  exact (no_features_clears_all (env_home 1%R) None _ Hnd (or_introl eq_refl)).
Defined.

(** Extra (geo_location.py, [update_entities]; sensor.py, [native_value]):
    a ["features"] value that cannot be iterated (null, a bool or a
    number) makes the geolocation pass raise [TypeError] before any event,
    with the tracked hazards untouched, while every count sensor reads 0. *)
Theorem non_iterable_features (en : env) (se : Sensor.senv) (hazard_type : string)
  (d : list (string * pyval)) (te : tracked) (v : pyval) :
  dict_get d "features" = Some v ->
  match v with PList _ | PStr _ | PDict _ => false | _ => true end = true ->
  update_entities en (Some d) te = (te, [], Some TypeError) /\
  Sensor.native_value se hazard_type (Some d) = Ok 0%Z.
Proof.
  intros Hf Hv. destruct d as [|kv d]; [discriminate Hf|].
  unfold update_entities, hazards_in_scope, Sensor.native_value. rewrite Hf.
  destruct v; try discriminate Hv; split; reflexivity.
Qed.

Lemma non_iterable_features_witness :
  dict_get [("features", PNone)] "features" = Some PNone /\
  update_entities (env_home 1%R) (Some [("features", PNone)]) [("A1", Runs.entity_A1)] =
    ([("A1", Runs.entity_A1)], [], Some TypeError).
Proof.
  split; [reflexivity|].
  exact (proj1 (non_iterable_features (env_home 1%R) (senv_home 1%R) "fire"
                  [("features", PNone)] [("A1", Runs.entity_A1)] PNone eq_refl eq_refl)).
Defined.

Lemma scope_loop_app (en : env) (l1 l2 : list pyval) :
  forall acc, scope_loop en (l1 ++ l2) acc = scope_loop en l2 (scope_loop en l1 acc).
Proof.
  induction l1 as [|f r IH]; intros acc; [reflexivity|].
  cbn [List.app scope_loop]. destruct (scope_check en f) as [[h|]|x]; apply IH.
Qed.

Lemma scope_loop_other (en : env) (h : string) (fs : list pyval) :
  (forall g, In g fs -> scope_check en g <> Ok (Some h)) ->
  forall acc, assoc_get (scope_loop en fs acc) h = assoc_get acc h.
Proof.
  induction fs as [|f r IH]; intros Hn acc; [reflexivity|].
  cbn [scope_loop].
  assert (Hr : forall g, In g r -> scope_check en g <> Ok (Some h))
    by (intros g Hg; apply Hn; right; exact Hg).
  destruct (scope_check en f) as [[h'|]|x] eqn:E; rewrite (IH Hr); try reflexivity.
  rewrite assoc_get_insert. destruct (String.eqb_spec h h') as [->|]; [|reflexivity].
  exfalso. apply (Hn f (or_introl eq_refl)). exact E.
Qed.

(** Extra (geo_location.py, [update_entities], [hazards_in_scope]): when
    several in-scope features share an id, the last one is kept (the
    client's merge keeps the first one). *)
Theorem scope_last_wins (en : env) (d : list (string * pyval)) (fs1 fs2 : list pyval)
  (f : pyval) (h : string) :
  dict_get d "features" = Some (PList (fs1 ++ f :: fs2)) ->
  scope_check en f = Ok (Some h) ->
  (forall g, In g fs2 -> scope_check en g <> Ok (Some h)) ->
  exists his, hazards_in_scope en (Some d) = Ok his /\ assoc_get his h = Some f.
Proof.
  intros Hf Hc Hn. destruct d as [|kv d]; [discriminate Hf|].
  unfold hazards_in_scope. rewrite Hf. cbn [py_iter bind].
  eexists. split; [reflexivity|].
  rewrite scope_loop_app. cbn [scope_loop]. rewrite Hc.
  rewrite (scope_loop_other en h fs2 Hn). rewrite assoc_get_insert, String.eqb_refl.
  reflexivity.
Qed.

Lemma scope_check_A1_roadwork : scope_check (env_home 1%R) fA1_roadwork = Ok (Some "A1").
Proof.
  unfold scope_check. cbn -[haversine_distance].
  rewrite DistanceFacts.haversine_distance_same_point. cbn -[Rle_dec].
  destruct (Rle_dec 0 1); [reflexivity | lra].
Qed.

Lemma scope_last_wins_witness :
  dict_get [("features", PList [fA1; fA1_roadwork])] "features" =
    Some (PList ([fA1] ++ fA1_roadwork :: [])) /\
  scope_check (env_home 1%R) fA1_roadwork = Ok (Some "A1") /\
  exists his, hazards_in_scope (env_home 1%R) (Some [("features", PList [fA1; fA1_roadwork])]) = Ok his /\
              assoc_get his "A1" = Some fA1_roadwork.
Proof.
  split; [reflexivity|]. split; [exact scope_check_A1_roadwork|].
  apply (scope_last_wins (env_home 1%R) [("features", PList [fA1; fA1_roadwork])] [fA1] [] fA1_roadwork "A1" eq_refl
           scope_check_A1_roadwork).
  intros g [].
Defined.

Definition tracker_located (en : env) (eid : string) : Prop :=
  exists st, states en eid = Some st /\ is_none (attr_or_none (st_attrs st) "latitude") = false.

Lemma device_locations_go_spec (en : env) (ids : list string) :
  forall acc, NoDup (map fst acc) ->
  NoDup (map fst (device_locations_go ids (states en) acc)) /\
  forall eid, In eid (map fst (device_locations_go ids (states en) acc)) <->
    In eid (map fst acc) \/ (In eid ids /\ tracker_located en eid).
Proof.
  induction ids as [|i r IH]; intros acc Hnd; cbn [device_locations_go].
  - split; [exact Hnd|]. intros eid. split; [tauto|]. intros [H|[[] _]]; exact H.
  - destruct (states en i) as [st|] eqn:Es.
    + destruct (is_none (attr_or_none (st_attrs st) "latitude")) eqn:En.
      * destruct (IH acc Hnd) as [Hn Hk]. split; [exact Hn|]. intros eid. rewrite Hk.
        split; [intros [H|[H1 H2]]; [left; exact H|right; split; [right; exact H1|exact H2]]|].
        intros [H|[[<-|H1] H2]]; [left; exact H| |right; split; assumption].
        destruct H2 as [st' [Es' Hl]]. rewrite Es in Es'. injection Es' as <-. congruence.
      * destruct (IH _ (assoc_insert_nodup i (attr_or_none (st_attrs st) "latitude", attr_or_none (st_attrs st) "longitude") acc Hnd)) as [Hn Hk]. split; [exact Hn|].
        intros eid. rewrite Hk, assoc_insert_keys. split.
        -- intros [[<-|H]|[H1 H2]].
           ++ right. split; [left; reflexivity|]. exists st. split; assumption.
           ++ left. exact H.
           ++ right. split; [right; exact H1|exact H2].
        -- intros [H|[[<-|H1] H2]]; [left; right; exact H|left; left; reflexivity|].
           right. split; assumption.
    + destruct (IH acc Hnd) as [Hn Hk]. split; [exact Hn|]. intros eid. rewrite Hk.
      split; [intros [H|[H1 H2]]; [left; exact H|right; split; [right; exact H1|exact H2]]|].
      intros [H|[[<-|H1] H2]]; [left; exact H| |right; split; assumption].
      destruct H2 as [st' [Es' _]]. rewrite Es in Es'. discriminate Es'.
Qed.

(** Extra (geo_location.py, [update_entities], [device_locations]): the
    device locations have no duplicate tracker, and hold exactly the
    configured trackers that have a state whose latitude is not [None]. *)
Theorem device_locations_keys (en : env) :
  NoDup (map fst (device_locations en)) /\
  forall eid, In eid (map fst (device_locations en)) <->
    In eid (device_trackers en) /\
    exists st, states en eid = Some st /\ is_none (attr_or_none (st_attrs st) "latitude") = false.
Proof.
  destruct (device_locations_go_spec en (device_trackers en) [] (NoDup_nil _)) as [Hn Hk].
  split; [exact Hn|]. intros eid. unfold device_locations. rewrite Hk.
  split; [intros [[]|H]; exact H|intros H; right; exact H].
Qed.

End PassExtra.

Module CountFacts.

Import Geo Sensor Inputs.

Ltac case_result H :=
  repeat match type of H with
  | context [match ?x with _ => _ end] =>
      let E := fresh "E" in destruct x eqn:E
  end.

Lemma count_step_le (se : senv) (ht : string) (h : pyval) (st st' : Z * list string) :
  count_step se ht h st = Ok st' -> (fst st' <= fst st + 1)%Z.
Proof.
  destruct st as [c l]. unfold count_step, bind. intros H.
  case_result H; try discriminate H; injection H as <-; simpl; lia.
Qed.

Lemma count_loop_le (se : senv) (ht : string) (hs : list pyval) :
  forall st, (fst (count_loop se ht hs st) <= fst st + Z.of_nat (List.length hs))%Z.
Proof.
  induction hs as [|h rest IH]; intros st; cbn [count_loop List.length]; [lia|].
  destruct (count_step se ht h st) as [st'|x] eqn:E.
  - apply count_step_le in E. specialize (IH st'). lia.
  - specialize (IH st). lia.
Qed.

Lemma count_loop_nonneg (se : senv) (ht : string) (hs : list pyval) :
  forall st, (fst st <= fst (count_loop se ht hs st))%Z.
Proof.
  induction hs as [|h rest IH]; intros st; cbn [count_loop]; [lia|].
  destruct (count_step se ht h st) as [st'|x] eqn:E; [|apply IH].
  destruct st as [c l]. unfold count_step, bind in E.
  specialize (IH st'). case_result E; try discriminate E; injection E as <-; simpl in *; lia.
Qed.

(** Extra (sensor.py, [native_value]): the count is never larger than
    the number of features in the data. *)
Theorem native_value_le_features (se : senv) (hazard_type : string)
  (d : list (string * pyval)) (l : list pyval) :
  dict_get d "features" = Some (PList l) ->
  exists n, native_value se hazard_type (Some d) = Ok n /\ (0 <= n <= Z.of_nat (List.length l))%Z.
Proof.
  intros Hf. destruct d as [|kv d]; [discriminate Hf|].
  unfold native_value. rewrite Hf. eexists. split; [reflexivity|].
  pose proof (count_loop_le se hazard_type l (0%Z, [])) as H1.
  pose proof (count_loop_nonneg se hazard_type l (0%Z, [])) as H2.
  cbn [fst] in H1, H2. lia.
Qed.

Lemma native_value_le_features_witness :
  dict_get [("features", PList [fA1])] "features" = Some (PList [fA1]) /\
  exists n, native_value (senv_home 1%R) "accident" (Some [("features", PList [fA1])]) = Ok n /\
            (0 <= n <= Z.of_nat (List.length [fA1]))%Z.
Proof.
  split; [reflexivity|].
  exact (native_value_le_features (senv_home 1%R) "accident" [("features", PList [fA1])] [fA1] eq_refl).
Defined.

Lemma Rpos_false (r : R) : (r <= 0)%R -> Rpos r = false.
Proof. intros H. unfold Rpos. destruct (Rlt_dec 0 r); [lra|reflexivity]. Qed.

Lemma count_step_no_radius (se : senv) (ht : string) (h : pyval) (st st' : Z * list string) :
  Rpos (s_home_radius_km se) = false -> Rpos (s_device_radius_km se) = false ->
  count_step se ht h st = Ok st' -> st' = st.
Proof.
  intros Hh Hd. destruct st as [c l]. unfold count_step, bind. rewrite Hh, Hd.
  rewrite !andb_false_r. cbn [negb andb]. intros H.
  case_result H; try discriminate H; injection H as <-; reflexivity.
Qed.

Lemma count_loop_no_radius (se : senv) (ht : string) (hs : list pyval) (st : Z * list string) :
  Rpos (s_home_radius_km se) = false -> Rpos (s_device_radius_km se) = false ->
  count_loop se ht hs st = st.
Proof.
  intros Hh Hd. revert st. induction hs as [|h rest IH]; intros st; cbn [count_loop]; [reflexivity|].
  destruct (count_step se ht h st) as [st'|x] eqn:E; [|apply IH].
  rewrite (count_step_no_radius se ht h st st' Hh Hd E). apply IH.
Qed.

(** Extra (sensor.py, [native_value]): when the home radius and the device
    radius are both at most 0, the sensor reads 0 whatever the data. *)
Theorem native_value_no_radius (se : senv) (hazard_type : string)
  (data : option (list (string * pyval))) :
  (s_home_radius_km se <= 0)%R -> (s_device_radius_km se <= 0)%R ->
  native_value se hazard_type data = Ok 0%Z.
Proof.
  intros Hh Hd. apply Rpos_false in Hh, Hd. unfold native_value.
  destruct data as [[|kv d]|]; try reflexivity.
  destruct (dict_get (kv :: d) "features") as [[]|]; try reflexivity.
  rewrite (count_loop_no_radius se hazard_type l _ Hh Hd). reflexivity.
Qed.

Definition senv_zero : senv :=
  {| config_latitude := PInt 0; config_longitude := PInt 0;
     s_home_radius_km := 0%R; s_device_trackers := [];
     s_device_radius_km := 0%R; s_states := fun _ => None |}.

Lemma native_value_no_radius_witness :
  (s_home_radius_km senv_zero <= 0)%R /\ (s_device_radius_km senv_zero <= 0)%R /\
  native_value senv_zero "accident" (Some [("features", PList [fA1])]) = Ok 0%Z.
Proof.
  split; [cbn; lra|]. split; [cbn; lra|].
  apply native_value_no_radius; cbn; lra.
Defined.

End CountFacts.

Module BudgetFacts.

Import Api.

Lemma try_endpoints_budget (net : network) (eps : list string) :
  forall st, (nreq (fst (try_endpoints net eps st)) <= nreq st + List.length eps)%nat.
Proof.
  induction eps as [|url rest IH]; intros st; cbn [try_endpoints List.length]; [cbn; lia|].
  destruct (net (nreq st) url) as [r| | |];
    try (specialize (IH {| seen := seen st; all_features := all_features st; nreq := S (nreq st) |});
         cbn [nreq] in IH; lia).
  repeat match goal with
         | |- context [match ?x with _ => _ end] => destruct x
         | |- context [if ?x then _ else _] => destruct x
         end;
    cbn [fst nreq];
    try lia;
    match goal with
    | |- context [try_endpoints net rest ?s] => specialize (IH s); cbn [nreq] in IH; lia
    end.
Qed.

(** Extra (api.py, [async_get_hazards]): fetching the categories issues at
    most three requests per category. *)
Theorem fetch_request_budget (net : network) (paths : list string) (st : fstate) :
  (nreq (fetch_categories net paths st) <= nreq st + 3 * List.length paths)%nat.
Proof.
  revert st. induction paths as [|seg rest IH]; intros st; cbn [fetch_categories List.length]; [lia|].
  pose proof (try_endpoints_budget net (endpoints_to_try seg) st) as H.
  destruct (try_endpoints net (endpoints_to_try seg) st) as [st' b]. cbn [fst List.length endpoints_to_try] in H.
  specialize (IH st'). lia.
Qed.

End BudgetFacts.
